(** * Telegram AI chatbot: the handlers of [main.py] and their properties

    The bot of [main.py] is request/response glue: a handler receives an
    [Update] of the messaging platform, calls at most one external service,
    writes through the MongoDB collections [db.users], [db.chat_history],
    [db.files], [db.web_search], and replies to the user.

    The embedding is shallow.  Python values that reach the store are
    [Value]s, a MongoDB document is a finite map from field names to values
    (the dict literals of the source), a collection is the list of its
    documents in insertion order.  A handler is a computation in a
    state-and-exception monad over the [World] (store, sent replies, log,
    downloaded files); what the outside world does during one invocation
    (which external call raises, what the generative call answers, the
    clock) is the [Env] the handler runs in. *)

From stdpp Require Import gmap strings list fin_maps.
From Stdlib Require Import ZArith Ascii.

Local Open Scope string_scope.
Local Open Scope list_scope.
Local Open Scope Z_scope.

(** ** Python values and MongoDB documents *)

(** The Python values the handlers store: [None], an [int], a [str], a
    [datetime] (as a number of ticks). *)
Inductive Value : Type :=
| VNone
| VInt (n : Z)
| VStr (s : string)
| VDatetime (t : Z).

#[global] Instance Value_eq_dec : EqDecision Value.
Proof. solve_decision. Defined.

(** A document is the dict the source writes: field name to value. *)
Abbreviation Doc := (gmap string Value).

(** An [Optional[str]] attribute as a stored value. *)
Definition py (o : option string) : Value :=
  match o with
  | Some s => VStr s
  | None => VNone
  end.

(** What an f-string prints for an [Optional[str]]: the string itself, or
    the four letters of [None]. *)
Definition format (o : option string) : string :=
  match o with
  | Some s => s
  | None => "None"
  end.

(** Truth value of a [str]: only the empty string is false. *)
Definition truthy_str (s : string) : bool :=
  match s with
  | EmptyString => false
  | String _ _ => true
  end.

(** ** The messaging platform's objects (python-telegram-bot) *)

Record User : Type := mkUser
  { u_id : Z; u_first_name : string; u_username : option string }.

Record Contact : Type := mkContact
  { c_user_id : option Z; c_phone_number : string }.

(** A [telegram.Document] always carries the attribute [file_name], whose
    value is [None] when the sender declared no name. *)
Record Document : Type := mkDocument
  { d_file_id : string; d_file_name : option string }.

(** A [telegram.PhotoSize] has no attribute [file_name] at all. *)
Record PhotoSize : Type := mkPhotoSize
  { p_file_id : string }.

Record Message : Type := mkMessage
  { text : option string;
    contact : option Contact;
    document : option Document;
    photo : list PhotoSize }.

Record Update : Type := mkUpdate
  { effective_user : User;
    effective_chat_id : Z;
    message : Message }.

Record CallbackContext : Type := mkContext
  { args : list string }.

Record KeyboardButton : Type := mkButton
  { button_text : string; request_contact : bool }.

Record ReplyKeyboardMarkup : Type := mkMarkup
  { keyboard : list (list KeyboardButton); resize_keyboard : bool }.

(** A reply delivered to a chat. *)
Record Reply : Type := mkReply
  { to_chat : Z; body : string; reply_markup : option ReplyKeyboardMarkup }.

(** The object bound to [file] in [file_handler]. *)
Inductive Attachment : Type :=
| ADocument (d : Document)
| APhotoSize (p : PhotoSize).

Definition hasattr_file_name (f : Attachment) : bool :=
  match f with
  | ADocument _ => true
  | APhotoSize _ => false
  end.

Definition attr_file_name (f : Attachment) : option string :=
  match f with
  | ADocument d => d_file_name d
  | APhotoSize _ => None
  end.

Definition attr_file_id (f : Attachment) : string :=
  match f with
  | ADocument d => d_file_id d
  | APhotoSize p => p_file_id p
  end.

(** ** Exceptions, log, world, environment *)

Inductive Exn : Type := Exception (msg : string).

Definition exn_msg (e : Exn) : string := let 'Exception m := e in m.

Inductive Level : Type := INFO | ERROR.

Record LogRecord : Type := mkLog
  { levelname : Level; log_message : string }.

(** The four collections of [db] ([web_search_coll] is [db.web_search]; the
    name [web_search] is the handler's), the replies delivered so far, the
    log, and the ids of the files written to local storage. *)
Record World : Type := mkWorld
  { users : list Doc;
    chat_history : list Doc;
    files : list Doc;
    web_search_coll : list Doc;
    outbox : list Reply;
    logs : list LogRecord;
    downloads : list string }.

Definition empty_world : World :=
  {| users := []; chat_history := []; files := []; web_search_coll := [];
     outbox := []; logs := []; downloads := [] |}.

(** The call sites that leave the process.  No handler has a loop, so each
    site runs at most once per invocation and one outcome per site
    describes the environment during that invocation. *)
Inductive Call : Type :=
| users_find_one_call
| users_insert_one_call
| users_update_one_call
| chat_history_insert_one_call
| files_insert_one_call
| web_search_insert_one_call
| get_file_call
| download_call
| reply_text_call        (* the [reply_text] of the handler's body *)
| reply_text_except_call (* the [reply_text] of its [except] clause *).

Record Env : Type := mkEnv
  { utcnow : Z;
    gemini_chat : Value -> Exn + string;
    raises : Call -> option Exn }.

(** ** The handler monad: state, and exceptions that keep the state *)

Inductive res (A : Type) : Type :=
| Ok (a : A)
| Raise (e : Exn).
Arguments Ok {A} a.
Arguments Raise {A} e.

Definition M (A : Type) : Type := World -> res A * World.

Definition ret {A} (a : A) : M A := fun w => (Ok a, w).

Definition raise {A} (e : Exn) : M A := fun w => (Raise e, w).

Definition bind {A B} (m : M A) (k : A -> M B) : M B :=
  fun w =>
    match m w with
    | (Ok a, w') => k a w'
    | (Raise e, w') => (Raise e, w')
    end.

(** [try: m except Exception as e: h e] *)
Definition try_except {A} (m : M A) (h : Exn -> M A) : M A :=
  fun w =>
    match m w with
    | (Ok a, w') => (Ok a, w')
    | (Raise e, w') => h e w'
    end.

#[global] Instance M_ret : MRet M := @ret.

#[global] Instance M_bind : MBind M := fun A B k m => bind m k.

(** An external call: it raises when the environment says so, before any
    effect of its own. *)
Definition external {A} (e : Env) (c : Call) (op : M A) : M A :=
  fun w =>
    match raises e c with
    | Some x => (Raise x, w)
    | None => op w
    end.

Definition modify (f : World -> World) : M unit := fun w => (Ok tt, f w).

Definition get {A} (f : World -> A) : M A := fun w => (Ok (f w), w).

Definition exec {A} (m : M A) (w : World) : World := snd (m w).

Definition outcome {A} (m : M A) (w : World) : res A := fst (m w).

(** ** The store: [find_one], [insert_one], [update_one] *)

(** One field of a query against one field of a document: equal values
    match, and [None] also matches a missing field. *)
Definition field_matches (q : Value) (o : option Value) : bool :=
  match o with
  | Some v => bool_decide (q = v)
  | None => bool_decide (q = VNone)
  end.

(** A query dict matches a document when each of its fields does. *)
Definition matches (flt d : Doc) : bool :=
  forallb (fun kv => field_matches kv.2 (d !! kv.1)) (map_to_list flt).

Fixpoint find_one (flt : Doc) (coll : list Doc) : option Doc :=
  match coll with
  | [] => None
  | d :: ds => if matches flt d then Some d else find_one flt ds
  end.

(** [update_one(flt, {"$set": fields})]: the first matching document gets
    the fields, no other document changes, nothing is inserted. *)
Fixpoint update_one (flt fields : Doc) (coll : list Doc) : list Doc :=
  match coll with
  | [] => []
  | d :: ds =>
      if matches flt d then (fields ∪ d) :: ds
      else d :: update_one flt fields ds
  end.

(** [insert_one(d)]: the document goes to the end of the collection.  The
    [_id] the store adds to every document it stores is left out: no
    handler reads or writes it. *)
Definition insert_one (d : Doc) (coll : list Doc) : list Doc := coll ++ [d].

(** A document read back from the store carries its [_id], so as a dict it
    is true; only [None] is false. *)
Definition truthy_found (o : option Doc) : bool :=
  match o with
  | Some _ => true
  | None => false
  end.

Definition set_users (f : list Doc -> list Doc) (w : World) : World :=
  {| users := f (users w); chat_history := chat_history w; files := files w;
     web_search_coll := web_search_coll w; outbox := outbox w; logs := logs w;
     downloads := downloads w |}.

Definition set_chat_history (f : list Doc -> list Doc) (w : World) : World :=
  {| users := users w; chat_history := f (chat_history w); files := files w;
     web_search_coll := web_search_coll w; outbox := outbox w; logs := logs w;
     downloads := downloads w |}.

Definition set_files (f : list Doc -> list Doc) (w : World) : World :=
  {| users := users w; chat_history := chat_history w; files := f (files w);
     web_search_coll := web_search_coll w; outbox := outbox w; logs := logs w;
     downloads := downloads w |}.

Definition set_web_search (f : list Doc -> list Doc) (w : World) : World :=
  {| users := users w; chat_history := chat_history w; files := files w;
     web_search_coll := f (web_search_coll w); outbox := outbox w;
     logs := logs w; downloads := downloads w |}.

Definition set_outbox (f : list Reply -> list Reply) (w : World) : World :=
  {| users := users w; chat_history := chat_history w; files := files w;
     web_search_coll := web_search_coll w; outbox := f (outbox w);
     logs := logs w; downloads := downloads w |}.

Definition set_logs (f : list LogRecord -> list LogRecord) (w : World) : World :=
  {| users := users w; chat_history := chat_history w; files := files w;
     web_search_coll := web_search_coll w; outbox := outbox w;
     logs := f (logs w); downloads := downloads w |}.

Definition set_downloads (f : list string -> list string) (w : World) : World :=
  {| users := users w; chat_history := chat_history w; files := files w;
     web_search_coll := web_search_coll w; outbox := outbox w; logs := logs w;
     downloads := f (downloads w) |}.

Definition db_users_find_one (e : Env) (flt : Doc) : M (option Doc) :=
  external e users_find_one_call (get (fun w => find_one flt (users w))).

Definition db_users_insert_one (e : Env) (d : Doc) : M unit :=
  external e users_insert_one_call (modify (set_users (insert_one d))).

Definition db_users_update_one (e : Env) (flt fields : Doc) : M unit :=
  external e users_update_one_call (modify (set_users (update_one flt fields))).

Definition db_chat_history_insert_one (e : Env) (d : Doc) : M unit :=
  external e chat_history_insert_one_call
    (modify (set_chat_history (insert_one d))).

Definition db_files_insert_one (e : Env) (d : Doc) : M unit :=
  external e files_insert_one_call (modify (set_files (insert_one d))).

Definition db_web_search_insert_one (e : Env) (d : Doc) : M unit :=
  external e web_search_insert_one_call
    (modify (set_web_search (insert_one d))).

(** ** The other collaborators *)

Definition gemini_chat_text (e : Env) (prompt : Value) : M string :=
  match gemini_chat e prompt with
  | inl x => raise x
  | inr s => ret s
  end.

Definition reply_text_at (c : Call) (e : Env) (update : Update) (s : string)
    (markup : option ReplyKeyboardMarkup) : M unit :=
  external e c
    (modify (set_outbox (fun o =>
       o ++ [ {| to_chat := effective_chat_id update; body := s;
                 reply_markup := markup |} ]))).

Definition reply_text := reply_text_at reply_text_call.

Definition reply_text_except := reply_text_at reply_text_except_call.

Definition logging_info (s : string) : M unit :=
  modify (set_logs (fun l => l ++ [ {| levelname := INFO; log_message := s |} ])).

Definition logging_error (s : string) : M unit :=
  modify (set_logs (fun l => l ++ [ {| levelname := ERROR; log_message := s |} ])).

(** [file.get_file().download()]: two calls to the platform, the second
    writes the content to local storage. *)
Definition get_file_download (e : Env) (f : Attachment) : M string :=
  external e get_file_call (ret tt);;
  external e download_call
    (modify (set_downloads (fun l => l ++ [attr_file_id f]));;
     ret (attr_file_id f)).

(** ** The handlers *)

Definition contact_button : ReplyKeyboardMarkup :=
  {| keyboard :=
       [[ {| button_text := "Share Phone Number"; request_contact := true |} ]];
     resize_keyboard := true |}.

Definition welcome_text : string :=
  "Welcome! Please share your phone number to complete registration.".

Definition thanks_text : string :=
  "Thank you! Your phone number has been saved.".

Definition chat_apology : string := "Sorry, I couldn't process that right now.".

Definition file_apology : string := "Sorry, I couldn't analyze the file.".

Definition search_apology : string := "Sorry, I couldn't perform the web search.".

Definition usage_text : string := "Please provide a query after /websearch.".

Definition default_file_name : string := "photo.jpg".

(** The query dict [{"chat_id": v}]. *)
Definition chat_id_query (v : Value) : Doc := {[ "chat_id" := v ]}.

(** The document [start] inserts: three fields, no [phone_number]. *)
Definition user_record (user : User) : Doc :=
  <[ "first_name" := VStr (u_first_name user) ]>
  (<[ "username" := py (u_username user) ]>
   {[ "chat_id" := VInt (u_id user) ]}).

(** [start]: registers the user unless a row with the chat id exists, then
    asks for the phone number.  No [try]: an exception leaves the handler. *)
Definition start (e : Env) (update : Update) (context : CallbackContext)
    : M unit :=
  let user := effective_user update in
  let chat_id := u_id user in
  found ← db_users_find_one e (chat_id_query (VInt chat_id));
  (if negb (truthy_found found) then
     db_users_insert_one e (user_record user);;
     logging_info ("New user registered: " +:+ format (u_username user))
   else ret tt);;
  reply_text e update welcome_text (Some contact_button).

(** The [user_id] of a contact as a stored value ([None] when the contact
    is not a user of the platform). *)
Definition contact_key (c : Contact) : Value :=
  from_option VInt VNone (c_user_id c).

(** The fields of [{"$set": {"phone_number": ...}}]. *)
Definition phone_fields (c : Contact) : Doc :=
  {[ "phone_number" := VStr (c_phone_number c) ]}.

(** [contact_handler]: the row is looked up by the contact's [user_id]. *)
Definition contact_handler (e : Env) (update : Update)
    (context : CallbackContext) : M unit :=
  match contact (message update) with
  | None => raise (Exception "'NoneType' object has no attribute 'user_id'")
  | Some contact =>
      db_users_update_one e (chat_id_query (contact_key contact))
        (phone_fields contact);;
      reply_text e update thanks_text None
  end.

(** The document [chat_handler] stores. *)
Definition chat_record (e : Env) (update : Update) (gemini_response : string)
    : Doc :=
  <[ "chat_id" := VInt (effective_chat_id update) ]>
  (<[ "user_input" := py (text (message update)) ]>
   (<[ "bot_response" := VStr gemini_response ]>
    {[ "timestamp" := VDatetime (utcnow e) ]})).

Definition chat_handler (e : Env) (update : Update) (context : CallbackContext)
    : M unit :=
  let user_message := py (text (message update)) in
  try_except
    (gemini_response ← gemini_chat_text e user_message;
     db_chat_history_insert_one e (chat_record e update gemini_response);;
     reply_text e update gemini_response None)
    (fun ex =>
       logging_error ("Gemini API error: " +:+ exn_msg ex);;
       reply_text_except e update chat_apology None).

(** The object [update.message.document or update.message.photo[-1]]
    evaluates to, when it evaluates: the document if there is one, else the
    last photo size. *)
Definition chosen_file (m : Message) : option Attachment :=
  match document m with
  | Some d => Some (ADocument d)
  | None => APhotoSize <$> last (photo m)
  end.

(** With no document and an empty photo list the index [-1] raises. *)
Definition select_file (m : Message) : M Attachment :=
  match chosen_file m with
  | Some f => ret f
  | None => raise (Exception "list index out of range")
  end.

(** [file.file_name if hasattr(file, 'file_name') else "photo.jpg"] *)
Definition display_file_name (file : Attachment) : option string :=
  if hasattr_file_name file then attr_file_name file
  else Some default_file_name.

Definition analysis_of (file_name : option string) : string :=
  "Analysis of " +:+ format file_name +:+ " completed by Gemini AI.".

Definition file_record (e : Env) (update : Update) (file_name : option string)
    : Doc :=
  <[ "file_name" := py file_name ]>
  (<[ "chat_id" := VInt (effective_chat_id update) ]>
   (<[ "description" := VStr (analysis_of file_name) ]>
    {[ "timestamp" := VDatetime (utcnow e) ]})).

Definition file_handler (e : Env) (update : Update) (context : CallbackContext)
    : M unit :=
  file ← select_file (message update);
  let file_name := display_file_name file in
  file_path ← get_file_download e file;
  try_except
    (let gemini_analysis := analysis_of file_name in
     db_files_insert_one e (file_record e update file_name);;
     reply_text e update ("File analyzed: " +:+ gemini_analysis) None)
    (fun ex =>
       logging_error ("File analysis error: " +:+ exn_msg ex);;
       reply_text_except e update file_apology None).

(** [" ".join(context.args)] *)
Definition join_args (context : CallbackContext) : string :=
  String.concat " " (args context).

Definition results_for (query : string) : string :=
  "Results for '" +:+ query +:+ "' retrieved by AI.".

Definition search_record (e : Env) (update : Update) (query : string) : Doc :=
  <[ "chat_id" := VInt (effective_chat_id update) ]>
  (<[ "query" := VStr query ]>
   (<[ "results" := VStr (results_for query) ]>
    {[ "timestamp" := VDatetime (utcnow e) ]})).

Definition web_search (e : Env) (update : Update) (context : CallbackContext)
    : M unit :=
  let query := join_args context in
  if negb (truthy_str query) then reply_text e update usage_text None
  else
    try_except
      (let search_results := results_for query in
       db_web_search_insert_one e (search_record e update query);;
       reply_text e update search_results None)
      (fun ex =>
         logging_error ("Web search error: " +:+ exn_msg ex);;
         reply_text_except e update search_apology None).

(** ** The dispatcher of [main] *)

(** The five handlers [main] registers; an update reaches at most one. *)
Inductive Handler : Type :=
| h_start
| h_websearch
| h_contact
| h_text
| h_file.

Definition run_handler (h : Handler) : Env -> Update -> CallbackContext -> M unit :=
  match h with
  | h_start => start
  | h_websearch => web_search
  | h_contact => contact_handler
  | h_text => chat_handler
  | h_file => file_handler
  end.

(** One event of the inbound queue: which handler it reaches, what it
    carries, and how the environment behaves while it is handled. *)
Record Event : Type := mkEvent
  { ev_handler : Handler;
    ev_env : Env;
    ev_update : Update;
    ev_context : CallbackContext }.

Definition handle (ev : Event) (w : World) : World :=
  exec (run_handler (ev_handler ev) (ev_env ev) (ev_update ev) (ev_context ev)) w.

(** Events are handled one after the other; an exception that leaves a
    handler is the dispatcher's to log, the polling loop goes on. *)
Definition run (evs : list Event) (w : World) : World :=
  foldl (fun w ev => handle ev w) w evs.

(** ** Concrete inputs for the examples *)

Definition reliable (t : Z) (answer : string) : Env :=
  {| utcnow := t; gemini_chat := fun _ => inr answer; raises := fun _ => None |}.

Definition alice : User :=
  {| u_id := 1; u_first_name := "Alice"; u_username := Some "alice" |}.

Definition no_message : Message :=
  {| text := None; contact := None; document := None; photo := [] |}.

Definition upd (u : User) (m : Message) : Update :=
  {| effective_user := u; effective_chat_id := u_id u; message := m |}.

Definition no_args : CallbackContext := {| args := [] |}.

Definition text_message (s : string) : Message :=
  {| text := Some s; contact := None; document := None; photo := [] |}.

Definition contact_message (c : Contact) : Message :=
  {| text := None; contact := Some c; document := None; photo := [] |}.

(** ** Rows of a chat id *)

Definition has_chat_id (c : Z) (d : Doc) : Prop :=
  d !! "chat_id" = Some (VInt c).

#[global] Instance has_chat_id_dec c d : Decision (has_chat_id c d).
Proof. unfold has_chat_id. apply _. Defined.

(** The rows of [coll] registered under chat id [c]. *)
Definition rows_for (c : Z) (coll : list Doc) : list Doc :=
  filter (has_chat_id c) coll.

(** At most one row per chat id. *)
Definition unique_chat_id (coll : list Doc) : Prop :=
  forall c : Z, (length (rows_for c coll) <= 1)%nat.

Definition phone_number_of (d : Doc) : option Value := d !! "phone_number".

(** ** Replies, log records and events the statements speak of *)

Definition plain_reply (update : Update) (s : string) : Reply :=
  {| to_chat := effective_chat_id update; body := s; reply_markup := None |}.

Definition thanks_reply (update : Update) : Reply :=
  plain_reply update thanks_text.

Definition error_record (s : string) : LogRecord :=
  {| levelname := ERROR; log_message := s |}.

(** Further [start] events of a registered chat id. *)
Definition start_of (c : Z) (ev : Event) : Prop :=
  ev_handler ev = h_start /\ u_id (effective_user (ev_update ev)) = c.

#[global] Instance Call_eq_dec : EqDecision Call.
Proof. solve_decision. Defined.

(** An environment in which exactly the call [c] raises [x]. *)
Definition failing_at (c : Call) (x : Exn) (t : Z) (answer : string) : Env :=
  {| utcnow := t;
     gemini_chat := fun _ => inr answer;
     raises := fun c' => if decide (c' = c) then Some x else None |}.

(** An environment in which the generative call raises [x] and every other
    call answers. *)
Definition gemini_down (x : Exn) (t : Z) : Env :=
  {| utcnow := t; gemini_chat := fun _ => inl x; raises := fun _ => None |}.

(** ** The chat handler's two cases, as the specification words them *)

(** Either the generative call succeeded, one record with the input was
    appended and the generated text was sent; or it failed, no record was
    appended and the apology was sent. *)
Definition chat_dichotomy (e : Env) (update : Update)
    (context : CallbackContext) (w : World) : Prop :=
  let w' := exec (chat_handler e update context) w in
  match gemini_chat e (py (text (message update))) with
  | inr r =>
      (exists d, chat_history w' = chat_history w ++ [d] /\
                 d !! "user_input" = Some (py (text (message update)))) /\
      outbox w' = outbox w ++ [plain_reply update r]
  | inl _ =>
      chat_history w' = chat_history w /\
      outbox w' = outbox w ++ [plain_reply update chat_apology]
  end.

(** ** The file handler's failure policy, as the specification words it *)

(** The failure did not leave the handler: it was logged and the apology
    was sent. *)
Definition file_failure_absorbed (e : Env) (update : Update)
    (context : CallbackContext) (w : World) : Prop :=
  let w' := exec (file_handler e update context) w in
  outcome (file_handler e update context) w = Ok tt /\
  outbox w' = outbox w ++ [plain_reply update file_apology] /\
  exists s, logs w' = logs w ++ [error_record s].

(** ** Strings: containment, spaces, splitting at spaces *)

Definition contains (s sub : string) : Prop :=
  exists pre post, s = pre +:+ sub +:+ post.

Fixpoint spaces (n : nat) : string :=
  match n with
  | O => ""
  | S n => String " "%char (spaces n)
  end.

Fixpoint space_free (s : string) : bool :=
  match s with
  | "" => true
  | String a s' => negb (Ascii.eqb a " "%char) && space_free s'
  end.

(** The pieces of [s] between its spaces, as [s.split(" ")] gives them:
    every single space ends a piece. *)
Fixpoint split_spaces (s : string) : list string :=
  match s with
  | "" => [""]
  | String a s' =>
      if Ascii.eqb a " "%char then "" :: split_spaces s'
      else
        match split_spaces s' with
        | [] => [String a ""]
        | t :: ts => String a t :: ts
        end
  end.

(** The non-empty pieces of a text between its spaces: a run of spaces
    separates two tokens like a single space does. *)
Definition words (s : string) : list string :=
  filter (fun t => truthy_str t = true) (split_spaces s).

(** ** More concrete inputs *)

Definition hello_update : Update := upd alice (text_message "hello").

Definition document_message (d : Document) : Message :=
  {| text := None; contact := None; document := Some d; photo := [] |}.

Definition photo_message (ps : list PhotoSize) : Message :=
  {| text := None; contact := None; document := None; photo := ps |}.

(** A document whose sender declared no file name. *)
Definition unnamed_document : Document :=
  {| d_file_id := "doc-1"; d_file_name := None |}.

Definition report_document : Document :=
  {| d_file_id := "doc-2"; d_file_name := Some "report.pdf" |}.

Definition search_args : CallbackContext := {| args := ["weather"; "today"] |}.

Definition bob : User :=
  {| u_id := 2; u_first_name := "Bob"; u_username := None |}.

Definition start_event (u : User) : Event :=
  mkEvent h_start (reliable 0 "") (upd u no_message) no_args.

(** The store after Alice registered. *)
Definition alice_registered : World := run [start_event alice] empty_world.

(** The store after Alice and Bob registered. *)
Definition both_registered : World :=
  run [start_event alice; start_event bob] empty_world.

Definition alice_contact : Contact :=
  {| c_user_id := Some 1; c_phone_number := "+1555" |}.

Definition bob_contact : Contact :=
  {| c_user_id := Some 2; c_phone_number := "+1777" |}.

(** ** Further notions the statements speak of *)

Definition welcome_reply (update : Update) : Reply :=
  {| to_chat := effective_chat_id update; body := welcome_text;
     reply_markup := Some contact_button |}.

Definition info_record (s : string) : LogRecord :=
  {| levelname := INFO; log_message := s |}.

(** How the handler an event reaches ends: normally, or with the exception
    that leaves it. *)
Definition handle_outcome (ev : Event) (w : World) : res unit :=
  outcome (run_handler (ev_handler ev) (ev_env ev) (ev_update ev) (ev_context ev)) w.

(** The number of documents in the four collections. *)
Definition records (w : World) : nat :=
  (length (users w) + length (chat_history w) + length (files w)
   + length (web_search_coll w))%nat.

(** The fields of a document apart from the [_id] the store adds. *)
Definition own_fields (d : Doc) : gset string := dom d ∖ {[ "_id" ]}.

(** The shape of a row of [db.users]: an integer chat id, a first name, a
    username (possibly null), and, the [_id] apart, at most a phone number
    besides, which is a string. *)
Definition user_row_ok (d : Doc) : Prop :=
  (exists c, has_chat_id c d) /\
  (exists s, d !! "first_name" = Some (VStr s)) /\
  (exists o, d !! "username" = Some (py o)) /\
  (d !! "phone_number" = None \/ exists p, d !! "phone_number" = Some (VStr p)) /\
  own_fields d ⊆ {[ "first_name"; "username"; "chat_id"; "phone_number" ]}.

(** The shape of a document of [db.chat_history]: the [_id] apart, the four
    fields the handler writes, the timestamp a [datetime]. *)
Definition chat_row_ok (d : Doc) : Prop :=
  own_fields d = {[ "chat_id"; "user_input"; "bot_response"; "timestamp" ]} /\
  (exists t, d !! "timestamp" = Some (VDatetime t)).

(** The shape of a document of [db.files]: the description is the template
    filled with the document's own file name. *)
Definition file_row_ok (d : Doc) : Prop :=
  own_fields d = {[ "file_name"; "chat_id"; "description"; "timestamp" ]} /\
  exists name, d !! "file_name" = Some (py name) /\
               d !! "description" = Some (VStr (analysis_of name)).

(** The shape of a document of [db.web_search]: a non-empty query, and the
    template filled with it as results. *)
Definition search_row_ok (d : Doc) : Prop :=
  own_fields d = {[ "chat_id"; "query"; "results"; "timestamp" ]} /\
  exists q, q <> "" /\ d !! "query" = Some (VStr q) /\
            d !! "results" = Some (VStr (results_for q)).

(** An update as the dispatcher hands it to a message handler:
    [update.message] is [None] when the update is an edited message or a
    channel post.  ([raw_user] stands for [update.effective_user], which
    [chat_handler] does not read.) *)
Record RawUpdate : Type := mkRawUpdate
  { raw_user : User;
    raw_chat_id : Z;
    raw_message : option Message }.

(** [chat_handler] from its first line: [update.message.text] is read
    before the [try], and raises when there is no message. *)
Definition chat_handler_raw (e : Env) (raw : RawUpdate)
    (context : CallbackContext) : M unit :=
  match raw_message raw with
  | None => raise (Exception "'NoneType' object has no attribute 'text'")
  | Some m =>
      chat_handler e
        {| effective_user := raw_user raw; effective_chat_id := raw_chat_id raw;
           message := m |} context
  end.

Definition edited_hello : RawUpdate :=
  {| raw_user := alice; raw_chat_id := 1; raw_message := None |}.

Definition raw_hello : RawUpdate :=
  {| raw_user := alice; raw_chat_id := 1;
     raw_message := Some (text_message "hello") |}.

Definition contact_event (e : Env) (u : User) (c : Contact) : Event :=
  mkEvent h_contact e (upd u (contact_message c)) no_args.

(** A contact that is not a user of the platform. *)
Definition stranger_contact : Contact :=
  {| c_user_id := None; c_phone_number := "+1999" |}.

Definition alice_new_contact : Contact :=
  {| c_user_id := Some 1; c_phone_number := "+1666" |}.

Definition two_photos : list PhotoSize :=
  [ {| p_file_id := "small" |}; {| p_file_id := "large" |} ].

(** * Properties *)

(** ** The store *)

Section Store.

Implicit Types (flt fields d : Doc) (coll : list Doc) (v : Value) (c : Z).

Lemma matches_chat_id_query v d :
  matches (chat_id_query v) d = field_matches v (d !! "chat_id").
Proof.
  unfold matches, chat_id_query. rewrite map_to_list_singleton. simpl.
  apply andb_true_r.
Qed.

Lemma matches_has_chat_id c d :
  matches (chat_id_query (VInt c)) d = true <-> has_chat_id c d.
Proof.
  rewrite matches_chat_id_query. unfold has_chat_id, field_matches.
  destruct (d !! "chat_id") as [v|]; rewrite bool_decide_eq_true.
  - split; congruence.
  - split; discriminate.
Qed.

Lemma find_one_None flt coll :
  find_one flt coll = None <-> Forall (fun d => matches flt d = false) coll.
Proof.
  induction coll as [|d ds IH]; simpl.
  - split; [constructor | reflexivity].
  - destruct (matches flt d) eqn:Hm.
    + split; [discriminate | intros H; inversion H; congruence].
    + rewrite IH. split; [by constructor | by inversion 1].
Qed.

Lemma find_one_Some flt coll d :
  find_one flt coll = Some d -> d ∈ coll /\ matches flt d = true.
Proof.
  induction coll as [|d' ds IH]; simpl; [discriminate|].
  destruct (matches flt d') eqn:Hm.
  - intros [= ->]. split; [left | done].
  - intros H. destruct (IH H). split; [by right | done].
Qed.

Lemma rows_for_nil_find_one c coll :
  rows_for c coll = [] <-> find_one (chat_id_query (VInt c)) coll = None.
Proof.
  rewrite find_one_None. unfold rows_for.
  induction coll as [|d ds IH].
  - split; [constructor | reflexivity].
  - rewrite filter_cons. destruct (decide (has_chat_id c d)) as [Hd|Hd].
    + split; [discriminate|]. inversion 1 as [|? ? Hm]; subst.
      apply matches_has_chat_id in Hd. congruence.
    + rewrite IH. split.
      * intros H; constructor; [|done].
        destruct (matches _ d) eqn:Hm; [|done].
        by apply matches_has_chat_id in Hm.
      * by inversion 1.
Qed.

Lemma rows_for_insert_one c d coll :
  rows_for c (insert_one d coll) =
  rows_for c coll ++ (if decide (has_chat_id c d) then [d] else []).
Proof.
  unfold rows_for, insert_one. rewrite filter_app, filter_cons, filter_nil.
  reflexivity.
Qed.

Lemma length_update_one flt fields coll :
  length (update_one flt fields coll) = length coll.
Proof.
  induction coll as [|d ds IH]; simpl; [done|].
  destruct (matches flt d); simpl; congruence.
Qed.

(** An update that does not set the chat id keeps every row under its
    chat id. *)
Lemma rows_for_update_one_length c flt fields coll :
  fields !! "chat_id" = None ->
  length (rows_for c (update_one flt fields coll)) = length (rows_for c coll).
Proof.
  intros Hf. unfold rows_for.
  induction coll as [|d ds IH]; simpl; [done|].
  assert (Hiff : has_chat_id c (fields ∪ d) <-> has_chat_id c d).
  { unfold has_chat_id. rewrite lookup_union_r by done. tauto. }
  destruct (matches flt d).
  - rewrite !filter_cons.
    destruct (decide (has_chat_id c (fields ∪ d))),
      (decide (has_chat_id c d)); simpl; tauto || done.
  - rewrite !filter_cons. destruct (decide (has_chat_id c d)); simpl; congruence.
Qed.

(** No match: nothing changes, nothing is inserted. *)
Lemma update_one_no_match flt fields coll :
  find_one flt coll = None -> update_one flt fields coll = coll.
Proof.
  induction coll as [|d ds IH]; simpl; [done|].
  destruct (matches flt d); [discriminate|]. intros H. by rewrite IH.
Qed.

(** Rows that do not match the query are where they were, as they were. *)
Lemma update_one_frame flt fields coll i d :
  coll !! i = Some d -> matches flt d = false ->
  update_one flt fields coll !! i = Some d.
Proof.
  revert i. induction coll as [|d' ds IH]; intros i; [done|].
  simpl. destruct (matches flt d') eqn:Hm.
  - destruct i as [|i]; simpl; [|done]. intros [= ->]. congruence.
  - destruct i as [|i]; simpl; [done|]. apply IH.
Qed.

(** A row changes only into itself with the fields set. *)
Lemma update_one_lookup flt fields coll i d :
  coll !! i = Some d ->
  update_one flt fields coll !! i = Some d \/
  (matches flt d = true /\ update_one flt fields coll !! i = Some (fields ∪ d)).
Proof.
  revert i. induction coll as [|d' ds IH]; intros i; [done|].
  simpl. destruct (matches flt d') eqn:Hm.
  - destruct i as [|i]; simpl; [|by left]. intros [= ->]. by right.
  - destruct i as [|i]; simpl; [by left|]. apply IH.
Qed.

(** The row [find_one] returns is the row [update_one] sets the fields
    of, provided the fields leave the queried ones alone. *)
Lemma find_one_update_one flt fields coll d :
  matches flt (fields ∪ d) = true ->
  find_one flt coll = Some d ->
  find_one flt (update_one flt fields coll) = Some (fields ∪ d).
Proof.
  intros Hk. induction coll as [|d' ds IH]; simpl; [discriminate|].
  destruct (matches flt d') eqn:Hm; simpl.
  - intros [= ->]. by rewrite Hk.
  - rewrite Hm. apply IH.
Qed.

End Store.

(** ** Running a handler *)

Ltac unfold_handler :=
  unfold handle, run_handler, exec, outcome,
    start, contact_handler, chat_handler, file_handler, web_search,
    select_file, get_file_download,
    db_users_find_one, db_users_insert_one, db_users_update_one,
    db_chat_history_insert_one, db_files_insert_one, db_web_search_insert_one,
    reply_text, reply_text_except, reply_text_at,
    logging_info, logging_error, gemini_chat_text,
    external, modify, get, try_except,
    mbind, M_bind, bind, mret, M_ret, ret, raise in *.

Ltac reduce_world :=
  cbn [fst snd negb truthy_found
       users chat_history files web_search_coll outbox logs downloads
       set_users set_chat_history set_files set_web_search set_outbox
       set_logs set_downloads] in *.

Ltac case_on x :=
  first [ match goal with H : x = _ |- _ => rewrite H end
        | let E := fresh "E" in destruct x eqn:E ].

(** Unfold the handler, then follow the environment call by call. *)
Ltac run_handler_cases :=
  unfold_handler;
  repeat (cbv beta iota zeta; reduce_world;
          match goal with
          | |- context [truthy_str ?s] => case_on (truthy_str s)
          | |- context [truthy_found (find_one ?q ?l)] => case_on (find_one q l)
          | |- context [raises ?e ?c] => case_on (raises e c)
          | |- context [gemini_chat ?e ?v] => case_on (gemini_chat e v)
          | |- context [match contact ?m with _ => _ end] => case_on (contact m)
          | |- context [match chosen_file ?m with _ => _ end] =>
              case_on (chosen_file m)
          end);
  cbv beta iota zeta; reduce_world.

Section Frames.

Variables (e : Env) (update : Update) (context : CallbackContext) (w : World).

Lemma chat_handler_users :
  users (exec (chat_handler e update context) w) = users w.
Proof. run_handler_cases; reflexivity. Qed.

Lemma file_handler_users :
  users (exec (file_handler e update context) w) = users w.
Proof. run_handler_cases; reflexivity. Qed.

Lemma web_search_users :
  users (exec (web_search e update context) w) = users w.
Proof. run_handler_cases; reflexivity. Qed.

End Frames.

(** ** Registration: [start] *)

Section Start.

Variables (e : Env) (update : Update) (context : CallbackContext) (w : World).

Let user := effective_user update.

Lemma user_record_chat_id (u : User) : has_chat_id (u_id u) (user_record u).
Proof. reflexivity. Qed.

Lemma user_record_phone_number (u : User) :
  phone_number_of (user_record u) = None.
Proof. reflexivity. Qed.

(** Whatever the environment does, [start] leaves the rows alone or
    appends the user's row, and the latter only when the chat id has
    none. *)
Lemma start_users :
  users (exec (start e update context) w) = users w \/
  (rows_for (u_id user) (users w) = [] /\
   users (exec (start e update context) w) =
     insert_one (user_record user) (users w)).
Proof.
  subst user.
  destruct (find_one (chat_id_query (VInt (u_id (effective_user update))))
              (users w)) eqn:Hf.
  - left. run_handler_cases; reflexivity.
  - apply rows_for_nil_find_one in Hf as Hr.
    run_handler_cases; auto.
Qed.

(** With the store answering, a chat id without a row gets its row. *)
Lemma start_fresh :
  rows_for (u_id user) (users w) = [] ->
  raises e users_find_one_call = None ->
  raises e users_insert_one_call = None ->
  users (exec (start e update context) w) =
    insert_one (user_record user) (users w).
Proof.
  subst user. intros Hr Hfind Hins.
  apply rows_for_nil_find_one in Hr.
  run_handler_cases; reflexivity.
Qed.

(** A chat id that has a row gets no other, whatever the environment. *)
Lemma start_registered :
  rows_for (u_id user) (users w) <> [] ->
  users (exec (start e update context) w) = users w.
Proof.
  intros Hr. destruct start_users as [H|[H _]]; [exact H | contradiction].
Qed.

Lemma start_unique :
  unique_chat_id (users w) ->
  unique_chat_id (users (exec (start e update context) w)).
Proof.
  intros Hu. destruct start_users as [->|[Hr ->]]; [exact Hu|].
  intros c. rewrite rows_for_insert_one.
  destruct (decide (has_chat_id c (user_record user))) as [Hc|Hc].
  - assert (c = u_id user) as ->.
    { pose proof (user_record_chat_id user) as H'.
      unfold has_chat_id in *. congruence. }
    rewrite Hr. simpl. lia.
  - rewrite app_nil_r. apply Hu.
Qed.

End Start.

(** ** Contact sharing: [contact_handler] *)

Section ContactHandler.

Variables (e : Env) (update : Update) (context : CallbackContext) (w : World).

Lemma phone_fields_chat_id (c : Contact) : phone_fields c !! "chat_id" = None.
Proof. reflexivity. Qed.

(** Whatever the environment does, the rows are those of [update_one] or
    the rows as they were. *)
Lemma contact_handler_users :
  users (exec (contact_handler e update context) w) = users w \/
  exists c, contact (message update) = Some c /\
    raises e users_update_one_call = None /\
    users (exec (contact_handler e update context) w) =
      update_one (chat_id_query (contact_key c)) (phone_fields c) (users w).
Proof.
  destruct (contact (message update)) as [c|] eqn:Hc.
  - destruct (raises e users_update_one_call) eqn:Hu.
    + left. run_handler_cases; reflexivity.
    + right. exists c. split; [done|]. split; [done|].
      run_handler_cases; reflexivity.
  - left. run_handler_cases; reflexivity.
Qed.

Lemma contact_handler_unique :
  unique_chat_id (users w) ->
  unique_chat_id (users (exec (contact_handler e update context) w)).
Proof.
  intros Hu. destruct contact_handler_users as [->|(c & _ & _ & ->)]; [done|].
  intros k. rewrite rows_for_update_one_length by apply phone_fields_chat_id.
  apply Hu.
Qed.

End ContactHandler.

(** ** Sequences of events *)

Lemma run_cons ev evs w : run (ev :: evs) w = run evs (handle ev w).
Proof. reflexivity. Qed.

Lemma handle_unique ev w :
  unique_chat_id (users w) -> unique_chat_id (users (handle ev w)).
Proof.
  intros Hu. destruct ev as [h e update context]. unfold handle.
  destruct h; cbn [ev_handler ev_env ev_update ev_context run_handler].
  - by apply start_unique.
  - by rewrite web_search_users.
  - by apply contact_handler_unique.
  - by rewrite chat_handler_users.
  - by rewrite file_handler_users.
Qed.

Lemma run_unique evs w :
  unique_chat_id (users w) -> unique_chat_id (users (run evs w)).
Proof.
  revert w. induction evs as [|ev evs IH]; intros w Hu; [exact Hu|].
  rewrite run_cons. apply IH, handle_unique, Hu.
Qed.

Lemma run_start_registered c evs w :
  rows_for c (users w) <> [] ->
  Forall (start_of c) evs ->
  users (run evs w) = users w.
Proof.
  revert w. induction evs as [|ev evs IH]; intros w Hr Hall; [reflexivity|].
  inversion Hall as [|? ? [Hh Hc] Hrest]; subst.
  rewrite run_cons.
  assert (Hstep : users (handle ev w) = users w).
  { destruct ev as [h e' update context]; simpl in *; subst h.
    unfold handle; cbn [ev_handler ev_env ev_update ev_context run_handler].
    by apply start_registered. }
  rewrite IH; [exact Hstep | by rewrite Hstep | done].
Qed.

(** C2: for a chat id without a row, with the store answering, [start]
    appends exactly one row, the user's, which carries the chat id and no
    [phone_number]; after that, any number of further [start] events of the
    same chat id, in any environment, leave the rows as they are. *)
Theorem start_registers_once e update context w :
  rows_for (u_id (effective_user update)) (users w) = [] ->
  raises e users_find_one_call = None ->
  raises e users_insert_one_call = None ->
  let user := effective_user update in
  let w1 := exec (start e update context) w in
  users w1 = users w ++ [user_record user] /\
  rows_for (u_id user) (users w1) = [user_record user] /\
  phone_number_of (user_record user) = None /\
  (forall e2 update2 context2,
      u_id (effective_user update2) = u_id user ->
      users (exec (start e2 update2 context2) w1) = users w1) /\
  (forall evs, Forall (start_of (u_id user)) evs ->
      users (run evs w1) = users w1).
Proof.
  intros Hr Hfind Hins user w1.
  assert (Hw1 : users w1 = users w ++ [user_record user]).
  { subst w1 user. by rewrite start_fresh. }
  assert (Hrows : rows_for (u_id user) (users w1) = [user_record user]).
  { rewrite Hw1. fold (insert_one (user_record user) (users w)).
    rewrite rows_for_insert_one. subst user. rewrite Hr.
    destruct (decide _) as [|Hn]; [done|].
    destruct Hn. apply user_record_chat_id. }
  split; [done|]. split; [done|]. split; [reflexivity|]. split.
  - intros e2 update2 context2 Hid. apply start_registered.
    rewrite Hid. fold user. by rewrite Hrows.
  - intros evs Hall. apply (run_start_registered (u_id user)); [|done].
    by rewrite Hrows.
Qed.

(** C3: at most one row per chat id holds of the empty store, every
    handler invocation preserves it in every environment, and so it holds
    after any sequence of events handled one after the other. *)
Theorem unique_chat_id_invariant :
  unique_chat_id (users empty_world) /\
  (forall ev w, unique_chat_id (users w) -> unique_chat_id (users (handle ev w))) /\
  (forall evs, unique_chat_id (users (run evs empty_world))).
Proof.
  assert (H0 : unique_chat_id (users empty_world)).
  { intros c. simpl. lia. }
  split; [exact H0|]. split; [exact handle_unique|].
  intros evs. by apply run_unique.
Qed.

(** ** Contact sharing: what changes and what does not *)

Lemma phone_fields_keep_chat_id (c : Contact) (d : Doc) :
  (phone_fields c ∪ d) !! "chat_id" = d !! "chat_id".
Proof. apply lookup_union_r, phone_fields_chat_id. Qed.

Lemma phone_fields_set (c : Contact) (d : Doc) :
  phone_number_of (phone_fields c ∪ d) = Some (VStr (c_phone_number c)).
Proof.
  unfold phone_number_of, phone_fields.
  apply lookup_union_Some_l, lookup_singleton_eq.
Qed.

Lemma phone_fields_other (c : Contact) (d : Doc) (k : string) :
  k <> "phone_number" -> (phone_fields c ∪ d) !! k = d !! k.
Proof.
  intros Hk. apply lookup_union_r. unfold phone_fields.
  by apply lookup_singleton_ne.
Qed.

(** With one row per chat id, every row of the contact's chat id is an old
    row with the phone fields set. *)
Lemma update_one_rows_for c fields (coll : list Doc) :
  fields !! "chat_id" = None ->
  (length (rows_for c coll) <= 1)%nat ->
  forall d', d' ∈ rows_for c (update_one (chat_id_query (VInt c)) fields coll) ->
  exists d, d ∈ coll /\ d' = fields ∪ d.
Proof.
  intros Hf. unfold rows_for.
  induction coll as [|d ds IH]; cbn [update_one]; intros Hlen d' Hin.
  - apply elem_of_nil in Hin. destruct Hin.
  - rewrite filter_cons in Hlen.
    destruct (matches (chat_id_query (VInt c)) d) eqn:Hm.
    + apply matches_has_chat_id in Hm as Hd.
      rewrite decide_True in Hlen by done. cbn [length] in Hlen.
      assert (Hnil : filter (has_chat_id c) ds = []).
      { destruct (filter (has_chat_id c) ds); [done | cbn [length] in Hlen; lia]. }
      rewrite filter_cons in Hin.
      destruct (decide (has_chat_id c (fields ∪ d))).
      * rewrite Hnil in Hin. apply list_elem_of_singleton in Hin as ->.
        exists d. split; [left | done].
      * rewrite Hnil in Hin. apply elem_of_nil in Hin. destruct Hin.
    + assert (Hd : ~ has_chat_id c d).
      { intros Hd. apply matches_has_chat_id in Hd. congruence. }
      rewrite decide_False in Hlen by done.
      rewrite filter_cons, decide_False in Hin by done.
      destruct (IH Hlen d' Hin) as (d0 & Hd0 & ->).
      exists d0. split; [by right | done].
Qed.

(** C4: for a contact-share event, with the store and the platform
    answering: the handler returns normally and sends the thank-you reply;
    the row the query finds is afterwards found with [phone_number] equal
    to the shared number and its other fields as before; with one row per
    chat id every row of that chat id has the shared number; and when no
    row matches, no row is created and all four collections are as they
    were. *)
Theorem contact_handler_spec e update context w c :
  contact (message update) = Some c ->
  raises e users_update_one_call = None ->
  raises e reply_text_call = None ->
  let flt := chat_id_query (contact_key c) in
  let w' := exec (contact_handler e update context) w in
  outcome (contact_handler e update context) w = Ok tt /\
  outbox w' = outbox w ++ [thanks_reply update] /\
  length (users w') = length (users w) /\
  (forall d, find_one flt (users w) = Some d ->
     exists d', find_one flt (users w') = Some d' /\
       phone_number_of d' = Some (VStr (c_phone_number c)) /\
       forall k, k <> "phone_number" -> d' !! k = d !! k) /\
  (forall uid, c_user_id c = Some uid -> unique_chat_id (users w) ->
     forall d', d' ∈ rows_for uid (users w') ->
       phone_number_of d' = Some (VStr (c_phone_number c))) /\
  (find_one flt (users w) = None -> users w' = users w) /\
  chat_history w' = chat_history w /\
  files w' = files w /\
  web_search_coll w' = web_search_coll w.
Proof.
  intros Hc Hupd Hrep flt w'.
  assert (Hu : users w' = update_one flt (phone_fields c) (users w)).
  { subst w' flt. run_handler_cases; reflexivity. }
  split; [run_handler_cases; reflexivity|].
  split; [subst w'; run_handler_cases; reflexivity|].
  split; [rewrite Hu; apply length_update_one|].
  split.
  { intros d Hd. exists (phone_fields c ∪ d). rewrite Hu. split.
    - apply find_one_update_one; [|done].
      apply find_one_Some in Hd as [_ Hm]. subst flt.
      rewrite matches_chat_id_query in *.
      by rewrite phone_fields_keep_chat_id.
    - split; [apply phone_fields_set | intros k; apply phone_fields_other]. }
  split.
  { intros uid Huid Huniq d' Hd'. rewrite Hu in Hd'. subst flt.
    unfold contact_key in Hd'. rewrite Huid in Hd'. cbn [from_option] in Hd'.
    apply update_one_rows_for in Hd' as (d & _ & ->);
      [apply phone_fields_set | apply phone_fields_chat_id | apply Huniq]. }
  split; [intros Hn; rewrite Hu; by apply update_one_no_match|].
  subst w'. repeat split; run_handler_cases; reflexivity.
Qed.

(** C9: the update is keyed on the contact's [user_id]: in every
    environment, a row that does not match that key stays where it was, as
    it was; so a row that changed carries the contact's [user_id] as its
    chat id, and the sender's own row is unchanged when the contact is
    somebody else's.  No row is added or removed, and the other collections
    are untouched. *)
Theorem contact_handler_frame e update context w c :
  contact (message update) = Some c ->
  let key := contact_key c in
  let sender := u_id (effective_user update) in
  let w' := exec (contact_handler e update context) w in
  length (users w') = length (users w) /\
  (forall i d, users w !! i = Some d ->
     field_matches key (d !! "chat_id") = false -> users w' !! i = Some d) /\
  (forall i d, users w !! i = Some d -> users w' !! i <> Some d ->
     field_matches key (d !! "chat_id") = true /\
     users w' !! i = Some (phone_fields c ∪ d)) /\
  (c_user_id c <> Some sender ->
     forall i d, users w !! i = Some d -> has_chat_id sender d ->
       users w' !! i = Some d) /\
  chat_history w' = chat_history w /\
  files w' = files w /\
  web_search_coll w' = web_search_coll w.
Proof.
  intros Hc key sender w'.
  assert (Hframe : forall i d, users w !! i = Some d ->
     field_matches key (d !! "chat_id") = false -> users w' !! i = Some d).
  { intros i d Hi Hm.
    destruct (contact_handler_users e update context w) as [Hu|(c' & Hc' & _ & Hu)];
      fold w' in Hu; rewrite Hu; [done|].
    assert (c' = c) as -> by congruence.
    apply update_one_frame; [done|]. by rewrite matches_chat_id_query. }
  split.
  { destruct (contact_handler_users e update context w) as [Hu|(c' & _ & _ & Hu)];
      fold w' in Hu; rewrite Hu; [done | apply length_update_one]. }
  split; [exact Hframe|].
  split.
  { intros i d Hi Hne.
    destruct (contact_handler_users e update context w) as [Hu|(c' & Hc' & _ & Hu)];
      fold w' in Hu; rewrite Hu in *; [done|].
    assert (c' = c) as -> by congruence.
    destruct (update_one_lookup (chat_id_query key) (phone_fields c) _ _ _ Hi)
      as [H|[Hm H]]; [done|].
    by rewrite matches_chat_id_query in Hm. }
  split.
  { intros Hother i d Hi Hd. apply Hframe; [done|].
    unfold has_chat_id in Hd. rewrite Hd. unfold field_matches.
    apply bool_decide_eq_false. subst key. unfold contact_key.
    destruct (c_user_id c) as [uid|]; cbn [from_option]; congruence. }
  subst w'. repeat split; run_handler_cases; reflexivity.
Qed.

(** ** The chat handler *)

Section ChatHandler.

Variables (e : Env) (update : Update) (context : CallbackContext) (w : World).

Let input := py (text (message update)).
Let w' := exec (chat_handler e update context) w.

(** Everything succeeds: one record, the generated reply. *)
Lemma chat_handler_success r :
  gemini_chat e input = inr r ->
  raises e chat_history_insert_one_call = None ->
  raises e reply_text_call = None ->
  chat_history w' = chat_history w ++ [chat_record e update r] /\
  outbox w' = outbox w ++ [plain_reply update r] /\
  logs w' = logs w /\
  outcome (chat_handler e update context) w = Ok tt.
Proof.
  subst input w'. intros Hg Hi Hr.
  repeat split; run_handler_cases; reflexivity.
Qed.

(** The generative call fails: no record; the failure is logged and, the
    platform answering, the apology is sent. *)
Lemma chat_handler_gemini_failure x :
  gemini_chat e input = inl x ->
  chat_history w' = chat_history w /\
  logs w' = logs w ++ [error_record ("Gemini API error: " +:+ exn_msg x)] /\
  (raises e reply_text_except_call = None ->
     outbox w' = outbox w ++ [plain_reply update chat_apology] /\
     outcome (chat_handler e update context) w = Ok tt).
Proof.
  subst input w'. intros Hg.
  repeat split; try intros Hr; run_handler_cases; reflexivity.
Qed.

(** The insert fails: no record, and the same [except] clause runs. *)
Lemma chat_handler_insert_failure r x :
  gemini_chat e input = inr r ->
  raises e chat_history_insert_one_call = Some x ->
  chat_history w' = chat_history w /\
  logs w' = logs w ++ [error_record ("Gemini API error: " +:+ exn_msg x)] /\
  (raises e reply_text_except_call = None ->
     outbox w' = outbox w ++ [plain_reply update chat_apology] /\
     outcome (chat_handler e update context) w = Ok tt).
Proof.
  subst input w'. intros Hg Hi.
  repeat split; try intros Hr; run_handler_cases; reflexivity.
Qed.

(** The record is written, then the reply fails. *)
Lemma chat_handler_reply_failure r x :
  gemini_chat e input = inr r ->
  raises e chat_history_insert_one_call = None ->
  raises e reply_text_call = Some x ->
  chat_history w' = chat_history w ++ [chat_record e update r] /\
  logs w' = logs w ++ [error_record ("Gemini API error: " +:+ exn_msg x)] /\
  (raises e reply_text_except_call = None ->
     outbox w' = outbox w ++ [plain_reply update chat_apology] /\
     outcome (chat_handler e update context) w = Ok tt) /\
  (forall y, raises e reply_text_except_call = Some y ->
     outbox w' = outbox w /\
     outcome (chat_handler e update context) w = Raise y).
Proof.
  subst input w'. intros Hg Hi Hr.
  repeat split; try intros y Hy; try intros Hy;
    run_handler_cases; reflexivity.
Qed.

(** In every environment the history is as it was or has one more
    record, the complete one. *)
Lemma chat_handler_history :
  chat_history w' = chat_history w \/
  exists r, gemini_chat e input = inr r /\
    chat_history w' = chat_history w ++ [chat_record e update r].
Proof.
  subst input w'.
  destruct (gemini_chat e (py (text (message update)))) as [x|r] eqn:Hg.
  - left. run_handler_cases; reflexivity.
  - destruct (raises e chat_history_insert_one_call) eqn:Hi.
    + left. run_handler_cases; reflexivity.
    + right. exists r. split; [done|]. run_handler_cases; reflexivity.
Qed.

End ChatHandler.

Lemma chat_record_fields e update r :
  chat_record e update r !! "chat_id" = Some (VInt (effective_chat_id update)) /\
  chat_record e update r !! "user_input" = Some (py (text (message update))) /\
  chat_record e update r !! "bot_response" = Some (VStr r) /\
  chat_record e update r !! "timestamp" = Some (VDatetime (utcnow e)).
Proof. repeat split. Qed.

(** C1, as the code has it: when the generative call, the insert and the
    send all succeed, exactly one record is appended, with the input as its
    [user_input] and the generated text as its [bot_response], and the
    generated text is sent; when the generative call fails, no record is
    appended, the failure is logged and, the platform answering, the
    apology is sent.  The same [except] clause absorbs a failure of the
    insert (no record, the failure logged, the apology sent) and a failure
    of the send (the record stays, the failure logged, the apology sent),
    so success of the generative call alone gives neither the record nor
    the generated reply.  In every environment the history is as it was or
    has one more record with all four fields, never a partial one. *)
Theorem chat_handler_cases e update context w :
  let input := py (text (message update)) in
  let w' := exec (chat_handler e update context) w in
  (forall r,
     gemini_chat e input = inr r ->
     raises e chat_history_insert_one_call = None ->
     raises e reply_text_call = None ->
     chat_history w' = chat_history w ++ [chat_record e update r] /\
     chat_record e update r !! "user_input" = Some input /\
     chat_record e update r !! "bot_response" = Some (VStr r) /\
     outbox w' = outbox w ++ [plain_reply update r] /\
     outcome (chat_handler e update context) w = Ok tt) /\
  (forall x,
     gemini_chat e input = inl x ->
     raises e reply_text_except_call = None ->
     chat_history w' = chat_history w /\
     logs w' = logs w ++ [error_record ("Gemini API error: " +:+ exn_msg x)] /\
     outbox w' = outbox w ++ [plain_reply update chat_apology] /\
     outcome (chat_handler e update context) w = Ok tt) /\
  (forall r x,
     gemini_chat e input = inr r ->
     raises e chat_history_insert_one_call = Some x ->
     raises e reply_text_except_call = None ->
     chat_history w' = chat_history w /\
     logs w' = logs w ++ [error_record ("Gemini API error: " +:+ exn_msg x)] /\
     outbox w' = outbox w ++ [plain_reply update chat_apology] /\
     outcome (chat_handler e update context) w = Ok tt) /\
  (forall r x,
     gemini_chat e input = inr r ->
     raises e chat_history_insert_one_call = None ->
     raises e reply_text_call = Some x ->
     raises e reply_text_except_call = None ->
     chat_history w' = chat_history w ++ [chat_record e update r] /\
     logs w' = logs w ++ [error_record ("Gemini API error: " +:+ exn_msg x)] /\
     outbox w' = outbox w ++ [plain_reply update chat_apology] /\
     outcome (chat_handler e update context) w = Ok tt) /\
  (chat_history w' = chat_history w \/
   exists r, gemini_chat e input = inr r /\
     chat_history w' = chat_history w ++ [chat_record e update r] /\
     dom (chat_record e update r) =
       {[ "chat_id"; "user_input"; "bot_response"; "timestamp" ]}).
Proof.
  intros input w'. split; [|split; [|split; [|split]]].
  - intros r Hg Hi Hr.
    destruct (chat_handler_success e update context w r Hg Hi Hr)
      as (H1 & H2 & _ & H3).
    destruct (chat_record_fields e update r) as (_ & F1 & F2 & _).
    done.
  - intros x Hg Hr.
    destruct (chat_handler_gemini_failure e update context w x Hg)
      as (H1 & H2 & H3).
    destruct (H3 Hr) as [H4 H5]. done.
  - intros r x Hg Hi Hexc.
    destruct (chat_handler_insert_failure e update context w r x Hg Hi)
      as (H1 & H2 & H3).
    destruct (H3 Hexc) as [H4 H5]. done.
  - intros r x Hg Hi Hr Hexc.
    destruct (chat_handler_reply_failure e update context w r x Hg Hi Hr)
      as (H1 & H2 & H3 & _).
    destruct (H3 Hexc) as [H4 H5]. done.
  - destruct (chat_handler_history e update context w) as [H|(r & Hg & H)];
      [by left|].
    right. exists r. split; [done|]. split; [done|].
    unfold chat_record. rewrite !dom_insert_L, dom_singleton_L.
    set_solver.
Qed.

Lemma chat_handler_cases_witness :
  (chat_history (exec (chat_handler (reliable 7 "hi there") hello_update no_args)
                   empty_world)
   = [chat_record (reliable 7 "hi there") hello_update "hi there"] /\
   outbox (exec (chat_handler (reliable 7 "hi there") hello_update no_args)
             empty_world)
   = [plain_reply hello_update "hi there"]) /\
  (chat_history (exec (chat_handler (gemini_down (Exception "503") 7)
                         hello_update no_args) empty_world) = [] /\
   outbox (exec (chat_handler (gemini_down (Exception "503") 7)
                   hello_update no_args) empty_world)
   = [plain_reply hello_update chat_apology]) /\
  (chat_history
     (exec (chat_handler
              (failing_at chat_history_insert_one_call (Exception "not primary")
                 7 "hi there") hello_update no_args) empty_world) = [] /\
   outbox
     (exec (chat_handler
              (failing_at chat_history_insert_one_call (Exception "not primary")
                 7 "hi there") hello_update no_args) empty_world)
   = [plain_reply hello_update chat_apology]) /\
  (chat_history
     (exec (chat_handler
              (failing_at reply_text_call (Exception "timed out") 7 "hi there")
              hello_update no_args) empty_world)
   = [chat_record
        (failing_at reply_text_call (Exception "timed out") 7 "hi there")
        hello_update "hi there"] /\
   outbox
     (exec (chat_handler
              (failing_at reply_text_call (Exception "timed out") 7 "hi there")
              hello_update no_args) empty_world)
   = [plain_reply hello_update chat_apology]).
Proof.
  split; [|split; [|split]].
  - destruct (chat_handler_cases (reliable 7 "hi there") hello_update no_args
                empty_world) as (H & _).
    destruct (H "hi there" eq_refl eq_refl eq_refl) as (H1 & _ & _ & H2 & _).
    split; [exact H1 | exact H2].
  - destruct (chat_handler_cases (gemini_down (Exception "503") 7) hello_update
                no_args empty_world) as (_ & H & _).
    destruct (H (Exception "503") eq_refl eq_refl) as (H1 & _ & H2 & _).
    split; [exact H1 | exact H2].
  - destruct (chat_handler_cases
                (failing_at chat_history_insert_one_call
                   (Exception "not primary") 7 "hi there")
                hello_update no_args empty_world) as (_ & _ & H & _).
    destruct (H "hi there" (Exception "not primary") eq_refl eq_refl eq_refl)
      as (H1 & _ & H2 & _).
    split; [exact H1 | exact H2].
  - destruct (chat_handler_cases
                (failing_at reply_text_call (Exception "timed out") 7 "hi there")
                hello_update no_args empty_world) as (_ & _ & _ & H & _).
    destruct (H "hi there" (Exception "timed out") eq_refl eq_refl eq_refl
                eq_refl) as (H1 & _ & H2 & _).
    split; [exact H1 | exact H2].
Defined.

(** C1, as worded, fails: the generative call answers, the insert raises,
    and the handler appends no record and sends the apology, which is
    neither of the two cases. *)
Lemma chat_dichotomy_fails_when_insert_raises :
  ~ chat_dichotomy
      (failing_at chat_history_insert_one_call (Exception "not primary") 7
         "hi there")
      hello_update no_args empty_world.
Proof.
  unfold chat_dichotomy. cbn [gemini_chat failing_at].
  intros [[d [H _]] _]. vm_compute in H. discriminate H.
Qed.

(** C8: the generative call and the insert succeed, the send of the
    generated reply raises: the record stays in the history, with the
    generated text as its [bot_response]; the failure is logged; no reply
    carrying the generated text was added to the sent ones: the apology is
    sent instead when the platform accepts it, and nothing is sent, the
    second failure leaving the handler, when it does not. *)
Theorem chat_record_survives_failed_reply e update context w r x :
  gemini_chat e (py (text (message update))) = inr r ->
  raises e chat_history_insert_one_call = None ->
  raises e reply_text_call = Some x ->
  let w' := exec (chat_handler e update context) w in
  chat_history w' = chat_history w ++ [chat_record e update r] /\
  chat_record e update r !! "bot_response" = Some (VStr r) /\
  logs w' = logs w ++ [error_record ("Gemini API error: " +:+ exn_msg x)] /\
  (raises e reply_text_except_call = None ->
     outbox w' = outbox w ++ [plain_reply update chat_apology] /\
     outcome (chat_handler e update context) w = Ok tt) /\
  (forall y, raises e reply_text_except_call = Some y ->
     outbox w' = outbox w /\
     outcome (chat_handler e update context) w = Raise y).
Proof.
  intros Hg Hi Hr w'.
  destruct (chat_handler_reply_failure e update context w r x Hg Hi Hr)
    as (H1 & H2 & H3 & H4).
  destruct (chat_record_fields e update r) as (_ & _ & F & _).
  done.
Qed.

Lemma chat_record_survives_failed_reply_witness :
  chat_history
    (exec (chat_handler
             (failing_at reply_text_call (Exception "timed out") 7 "hi there")
             hello_update no_args) empty_world)
  = [chat_record
       (failing_at reply_text_call (Exception "timed out") 7 "hi there")
       hello_update "hi there"] /\
  outbox
    (exec (chat_handler
             (failing_at reply_text_call (Exception "timed out") 7 "hi there")
             hello_update no_args) empty_world)
  = [plain_reply hello_update chat_apology].
Proof.
  destruct (chat_record_survives_failed_reply
              (failing_at reply_text_call (Exception "timed out") 7 "hi there")
              hello_update no_args empty_world "hi there"
              (Exception "timed out") eq_refl eq_refl eq_refl)
    as (H1 & _ & _ & H2 & _).
  destruct (H2 eq_refl) as [H3 _].
  split; [exact H1 | exact H3].
Defined.

(** ** The file handler *)

Section FileHandler.

Variables (e : Env) (update : Update) (context : CallbackContext) (w : World).
Variable file : Attachment.
Hypothesis Hfile : chosen_file (message update) = Some file.

Let w' := exec (file_handler e update context) w.
Let name := display_file_name file.

(** A failure while fetching the file leaves the handler at once. *)
Lemma file_handler_get_file_failure x :
  raises e get_file_call = Some x ->
  outcome (file_handler e update context) w = Raise x /\ w' = w.
Proof. subst w'. intros Hg. split; run_handler_cases; reflexivity. Qed.

(** So does a failure of the download. *)
Lemma file_handler_download_failure x :
  raises e get_file_call = None ->
  raises e download_call = Some x ->
  outcome (file_handler e update context) w = Raise x /\ w' = w.
Proof. subst w'. intros Hg Hd. split; run_handler_cases; reflexivity. Qed.

(** After the download, a failing insert is caught. *)
Lemma file_handler_insert_failure x :
  raises e get_file_call = None ->
  raises e download_call = None ->
  raises e files_insert_one_call = Some x ->
  files w' = files w /\
  logs w' = logs w ++ [error_record ("File analysis error: " +:+ exn_msg x)] /\
  (raises e reply_text_except_call = None ->
     outbox w' = outbox w ++ [plain_reply update file_apology] /\
     outcome (file_handler e update context) w = Ok tt).
Proof.
  subst w'. intros Hg Hd Hi.
  repeat split; try intros Hr; run_handler_cases; reflexivity.
Qed.

(** And so is a failing send of the description, the record staying. *)
Lemma file_handler_reply_failure x :
  raises e get_file_call = None ->
  raises e download_call = None ->
  raises e files_insert_one_call = None ->
  raises e reply_text_call = Some x ->
  files w' = files w ++ [file_record e update name] /\
  logs w' = logs w ++ [error_record ("File analysis error: " +:+ exn_msg x)] /\
  (raises e reply_text_except_call = None ->
     outbox w' = outbox w ++ [plain_reply update file_apology] /\
     outcome (file_handler e update context) w = Ok tt).
Proof.
  subst w' name. intros Hg Hd Hi Hr.
  repeat split; try intros Hr'; run_handler_cases; reflexivity.
Qed.

(** Nothing fails: the record and the description. *)
Lemma file_handler_success :
  (forall c, raises e c = None) ->
  files w' = files w ++ [file_record e update name] /\
  outbox w' =
    outbox w ++ [plain_reply update ("File analyzed: " +:+ analysis_of name)] /\
  outcome (file_handler e update context) w = Ok tt.
Proof.
  subst w' name. intros Hall.
  pose proof (Hall get_file_call). pose proof (Hall download_call).
  pose proof (Hall files_insert_one_call). pose proof (Hall reply_text_call).
  repeat split; run_handler_cases; reflexivity.
Qed.

End FileHandler.

Lemma display_file_name_document d :
  display_file_name (ADocument d) = d_file_name d.
Proof. reflexivity. Qed.

Lemma display_file_name_photo p :
  display_file_name (APhotoSize p) = Some default_file_name.
Proof. reflexivity. Qed.

(** C6, as the code has it: once the file is downloaded, a failure of the
    insert of the FileRecord or of the send of the description is caught
    and logged and, the platform answering, the apology is sent and the
    handler returns normally; a failure while fetching or downloading the
    file is outside the [try] and leaves the handler, with nothing logged,
    stored or sent. *)
Theorem file_handler_failures e update context w file :
  chosen_file (message update) = Some file ->
  let w' := exec (file_handler e update context) w in
  (forall x,
     raises e get_file_call = None ->
     raises e download_call = None ->
     raises e files_insert_one_call = Some x \/
       (raises e files_insert_one_call = None /\
        raises e reply_text_call = Some x) ->
     raises e reply_text_except_call = None ->
     outcome (file_handler e update context) w = Ok tt /\
     logs w' = logs w ++ [error_record ("File analysis error: " +:+ exn_msg x)] /\
     outbox w' = outbox w ++ [plain_reply update file_apology]) /\
  (forall x,
     raises e get_file_call = Some x \/
       (raises e get_file_call = None /\ raises e download_call = Some x) ->
     outcome (file_handler e update context) w = Raise x /\
     logs w' = logs w /\ outbox w' = outbox w /\ files w' = files w).
Proof.
  intros Hfile w'. split.
  - intros x Hg Hd [Hi|[Hi Hr]] Hexc.
    + destruct (file_handler_insert_failure e update context w file Hfile x
                  Hg Hd Hi) as (_ & H1 & H2).
      destruct (H2 Hexc). done.
    + destruct (file_handler_reply_failure e update context w file Hfile x
                  Hg Hd Hi Hr) as (_ & H1 & H2).
      destruct (H2 Hexc). done.
  - intros x [Hg|[Hg Hd]].
    + destruct (file_handler_get_file_failure e update context w file Hfile x Hg)
        as [H1 H2]. fold w' in H2. by rewrite H2.
    + destruct (file_handler_download_failure e update context w file Hfile x
                  Hg Hd) as [H1 H2]. fold w' in H2. by rewrite H2.
Qed.

Lemma file_handler_failures_witness :
  outcome (file_handler
             (failing_at files_insert_one_call (Exception "not primary") 3 "")
             (upd alice (document_message report_document)) no_args)
    empty_world = Ok tt /\
  outbox (exec (file_handler
                  (failing_at files_insert_one_call (Exception "not primary") 3 "")
                  (upd alice (document_message report_document)) no_args)
            empty_world)
  = [plain_reply (upd alice (document_message report_document)) file_apology].
Proof.
  destruct (file_handler_failures
              (failing_at files_insert_one_call (Exception "not primary") 3 "")
              (upd alice (document_message report_document)) no_args
              empty_world (ADocument report_document) eq_refl) as [H _].
  destruct (H (Exception "not primary") eq_refl eq_refl (or_introl eq_refl)
              eq_refl) as (H1 & _ & H2).
  split; [exact H1 | exact H2].
Defined.

(** C6, as worded, fails: the download raises, and the exception leaves the
    handler; nothing is logged and no apology is sent. *)
Lemma download_failure_not_absorbed :
  raises (failing_at download_call (Exception "timed out") 3 "") download_call
    = Some (Exception "timed out") /\
  ~ file_failure_absorbed
      (failing_at download_call (Exception "timed out") 3 "")
      (upd alice (document_message report_document)) no_args empty_world.
Proof.
  split; [reflexivity|].
  intros [H _]. vm_compute in H. discriminate H.
Qed.

(** C7: a document whose sender declared no file name has the attribute
    [file_name] all the same, so the default is not taken: the display name
    is [None], the record's [file_name] is null and the reply speaks of
    "None". *)
Theorem unnamed_document_gets_no_default :
  let update := upd alice (document_message unnamed_document) in
  let e := reliable 3 "" in
  let w' := exec (file_handler e update no_args) empty_world in
  chosen_file (message update) = Some (ADocument unnamed_document) /\
  display_file_name (ADocument unnamed_document) = None /\
  files w' = [file_record e update None] /\
  file_record e update None !! "file_name" = Some VNone /\
  outbox w' =
    [plain_reply update
       "File analyzed: Analysis of None completed by Gemini AI."].
Proof. repeat split. Qed.

(** What does hold of the display name: a declared name is used, a photo
    gets the default. *)
Lemma display_file_name_declared d s :
  d_file_name d = Some s -> display_file_name (ADocument d) = Some s.
Proof. intros H. by rewrite display_file_name_document. Qed.

(** ** The web search handler *)

Lemma truthy_str_true s : truthy_str s = true <-> s <> "".
Proof. destruct s; simpl; split; congruence. Qed.

Lemma truthy_str_false s : truthy_str s = false <-> s = "".
Proof. destruct s; simpl; split; congruence. Qed.

Lemma results_for_contains query : contains (results_for query) query.
Proof. exists "Results for '", "' retrieved by AI.". reflexivity. Qed.

Section WebSearch.

Variables (e : Env) (update : Update) (context : CallbackContext) (w : World).

Let query := join_args context.
Let w' := exec (web_search e update context) w.

(** An empty query: the usage text, in every environment no record. *)
Lemma web_search_empty :
  query = "" ->
  web_search_coll w' = web_search_coll w /\
  logs w' = logs w /\
  (raises e reply_text_call = None ->
     outbox w' = outbox w ++ [plain_reply update usage_text] /\
     outcome (web_search e update context) w = Ok tt).
Proof.
  subst query w'. intros Hq. apply truthy_str_false in Hq.
  repeat split; try intros Hr; run_handler_cases; reflexivity.
Qed.

(** A query, and the store and the platform answer: one record, the
    result text. *)
Lemma web_search_query :
  query <> "" ->
  raises e web_search_insert_one_call = None ->
  raises e reply_text_call = None ->
  web_search_coll w' =
    web_search_coll w ++ [search_record e update query] /\
  outbox w' = outbox w ++ [plain_reply update (results_for query)] /\
  outcome (web_search e update context) w = Ok tt.
Proof.
  subst query w'. intros Hq Hi Hr. apply truthy_str_true in Hq.
  repeat split; run_handler_cases; reflexivity.
Qed.

End WebSearch.

Lemma search_record_fields e update query :
  search_record e update query !! "chat_id"
    = Some (VInt (effective_chat_id update)) /\
  search_record e update query !! "query" = Some (VStr query) /\
  search_record e update query !! "results" = Some (VStr (results_for query)) /\
  search_record e update query !! "timestamp" = Some (VDatetime (utcnow e)).
Proof. repeat split. Qed.

(** C5: with an empty argument list the handler writes no SearchRecord, in
    any environment, and sends the usage reply; with a non-empty joined
    query, the store and the platform answering, it appends exactly one
    SearchRecord whose [query] is the joined query and sends one reply,
    which contains the query. *)
Theorem web_search_spec e update context w :
  let query := join_args context in
  let w' := exec (web_search e update context) w in
  (args context = [] ->
     web_search_coll w' = web_search_coll w /\
     (raises e reply_text_call = None ->
        outbox w' = outbox w ++ [plain_reply update usage_text])) /\
  (query <> "" ->
   raises e web_search_insert_one_call = None ->
   raises e reply_text_call = None ->
     web_search_coll w' = web_search_coll w ++ [search_record e update query] /\
     search_record e update query !! "query" = Some (VStr query) /\
     (exists r, outbox w' = outbox w ++ [plain_reply update r] /\
                contains r query)).
Proof.
  intros query w'. split.
  - intros Hargs.
    assert (Hq : join_args context = "") by (unfold join_args; by rewrite Hargs).
    destruct (web_search_empty e update context w Hq) as (H1 & _ & H2).
    split; [exact H1|]. intros Hr. by destruct (H2 Hr).
  - intros Hq Hi Hr.
    destruct (web_search_query e update context w Hq Hi Hr) as (H1 & H2 & _).
    destruct (search_record_fields e update query) as (_ & F & _).
    split; [exact H1|]. split; [exact F|].
    exists (results_for query). split; [exact H2 | apply results_for_contains].
Qed.

Lemma web_search_spec_witness :
  (web_search_coll (exec (web_search (reliable 5 "") (upd alice no_message) no_args)
                      empty_world) = [] /\
   outbox (exec (web_search (reliable 5 "") (upd alice no_message) no_args)
             empty_world)
   = [plain_reply (upd alice no_message) usage_text]) /\
  (web_search_coll (exec (web_search (reliable 5 "") (upd alice no_message)
                            search_args) empty_world)
   = [search_record (reliable 5 "") (upd alice no_message) "weather today"] /\
   search_record (reliable 5 "") (upd alice no_message) "weather today"
     !! "query" = Some (VStr "weather today")).
Proof.
  split.
  - destruct (web_search_spec (reliable 5 "") (upd alice no_message) no_args
                empty_world) as [H _].
    destruct (H eq_refl) as [H1 H2]. split; [exact H1 | exact (H2 eq_refl)].
  - destruct (web_search_spec (reliable 5 "") (upd alice no_message) search_args
                empty_world) as [_ H].
    assert (Hq : join_args search_args <> "") by discriminate.
    destruct (H Hq eq_refl eq_refl) as (H1 & H2 & _).
    split; [exact H1 | exact H2].
Defined.

(** ** Joining the arguments *)

Lemma append_cons a (s t : string) : String a s +:+ t = String a (s +:+ t).
Proof. reflexivity. Qed.

Lemma append_empty_r (s : string) : s +:+ "" = s.
Proof.
  induction s as [|a s IH]; [reflexivity|]. by rewrite append_cons, IH.
Qed.

Lemma split_spaces_not_nil s : split_spaces s <> [].
Proof.
  destruct s as [|a s]; cbn [split_spaces]; [done|].
  destruct (Ascii.eqb a " "); [done|]. by destruct (split_spaces s).
Qed.

(** A piece without a space in front of [s] is glued to the first piece of
    [s]. *)
Lemma split_spaces_app t s :
  space_free t = true ->
  split_spaces (t +:+ s) =
    match split_spaces s with
    | [] => [t]
    | u :: us => (t +:+ u) :: us
    end.
Proof.
  induction t as [|a t IH].
  - intros _. change ("" +:+ s) with s.
    pose proof (split_spaces_not_nil s). by destruct (split_spaces s).
  - cbn [space_free]. intros [Ha Ht]%andb_true_iff.
    apply negb_true_iff in Ha.
    rewrite append_cons. cbn [split_spaces]. rewrite Ha, (IH Ht).
    destruct (split_spaces s); by rewrite ?append_cons.
Qed.

Lemma split_spaces_space s : split_spaces (" " +:+ s) = "" :: split_spaces s.
Proof. reflexivity. Qed.

Lemma split_spaces_free t : space_free t = true -> split_spaces t = [t].
Proof.
  intros Ht. rewrite <- (append_empty_r t) at 1.
  rewrite split_spaces_app by done. cbn [split_spaces].
  by rewrite append_empty_r.
Qed.

(** Splitting the joined string at its spaces gives the tokens back. *)
Lemma split_spaces_concat ts :
  ts <> [] -> forallb space_free ts = true ->
  split_spaces (String.concat " " ts) = ts.
Proof.
  induction ts as [|t ts IH]; [done|]. intros _.
  cbn [forallb]. intros [Ht Hts]%andb_true_iff.
  destruct ts as [|t2 ts].
  - simpl. by apply split_spaces_free.
  - change (String.concat " " (t :: t2 :: ts))
      with (t +:+ " " +:+ String.concat " " (t2 :: ts)).
    rewrite split_spaces_app by done. rewrite split_spaces_space.
    rewrite append_empty_r. by rewrite IH.
Qed.

Lemma concat_empty_tokens n :
  String.concat " " (repeat "" (S (S n))) = spaces (S n).
Proof.
  induction n as [|n IH]; [reflexivity|].
  change (repeat "" (S (S (S n)))) with ("" :: repeat "" (S (S n))).
  change (String.concat " " ("" :: repeat "" (S (S n))))
    with ("" +:+ " " +:+ String.concat " " (repeat "" (S (S n)))).
  by rewrite IH.
Qed.

Lemma split_spaces_space_free s : forallb space_free (split_spaces s) = true.
Proof.
  induction s as [|a s IH]; [reflexivity|]. cbn [split_spaces].
  destruct (Ascii.eqb a " ") eqn:Ha; [exact IH|].
  destruct (split_spaces s) as [|t ts]; cbn [forallb space_free] in *;
    rewrite Ha; [reflexivity | exact IH].
Qed.

Lemma words_space_free s : forallb space_free (words s) = true.
Proof.
  unfold words. pose proof (split_spaces_space_free s) as H.
  induction (split_spaces s) as [|t ts IH]; [reflexivity|].
  cbn [forallb] in H. apply andb_true_iff in H as [Ht Hts].
  rewrite filter_cons. destruct (decide (truthy_str t = true)); [|by apply IH].
  cbn [forallb]. by rewrite Ht, IH.
Qed.

Lemma words_truthy s : forallb truthy_str (words s) = true.
Proof.
  unfold words. induction (split_spaces s) as [|t ts IH]; [reflexivity|].
  rewrite filter_cons. destruct (decide (truthy_str t = true)) as [Ht|]; [|done].
  cbn [forallb]. by rewrite Ht, IH.
Qed.

Lemma forallb_tail {A} (f : A -> bool) (l : list A) :
  forallb f l = true -> forallb f (tail l) = true.
Proof.
  destruct l as [|x l]; [done|]. cbn [forallb tail].
  by intros [_ H]%andb_true_iff.
Qed.

(** C10: the query is the argument tokens joined with single spaces: it is
    what the persisted SearchRecord and the reply carry; splitting it at
    its spaces gives back exactly the tokens when no token holds a space,
    so consecutive tokens are one space apart; when the arguments are the
    words of a command text after the command itself, every piece of the
    query is non-empty, whatever runs of spaces the text had; and two or
    more empty tokens give a non-empty query made of spaces only, which is
    recorded. *)
Theorem web_search_joins_with_single_spaces e update context w :
  let query := String.concat " " (args context) in
  let w' := exec (web_search e update context) w in
  (query <> "" ->
   raises e web_search_insert_one_call = None ->
   raises e reply_text_call = None ->
     exists d,
       web_search_coll w' = web_search_coll w ++ [d] /\
       d !! "query" = Some (VStr query) /\
       outbox w' = outbox w ++ [plain_reply update (results_for query)] /\
       contains (results_for query) query) /\
  (args context <> [] -> forallb space_free (args context) = true ->
     split_spaces query = args context) /\
  (forall command_text,
     args context = tail (words command_text) -> args context <> [] ->
     split_spaces query = args context /\
     forallb truthy_str (split_spaces query) = true) /\
  (forall n, args context = repeat "" (S (S n)) ->
     query = spaces (S n) /\ query <> "" /\
     (raises e web_search_insert_one_call = None ->
      raises e reply_text_call = None ->
        web_search_coll w' =
          web_search_coll w ++ [search_record e update (spaces (S n))])).
Proof.
  intros query w'.
  assert (Hrec : query <> "" ->
     raises e web_search_insert_one_call = None ->
     raises e reply_text_call = None ->
     web_search_coll w' = web_search_coll w ++ [search_record e update query] /\
     outbox w' = outbox w ++ [plain_reply update (results_for query)]).
  { intros Hq Hi Hr.
    destruct (web_search_query e update context w Hq Hi Hr) as (H1 & H2 & _).
    by split. }
  split; [|split; [|split]].
  - intros Hq Hi Hr. destruct (Hrec Hq Hi Hr) as [H1 H2].
    exists (search_record e update query).
    destruct (search_record_fields e update query) as (_ & F & _).
    split; [exact H1|]. split; [exact F|]. split; [exact H2|].
    apply results_for_contains.
  - intros Hne Hfree. by apply split_spaces_concat.
  - intros command_text Hargs Hne.
    assert (Hsplit : split_spaces query = args context).
    { apply split_spaces_concat; [exact Hne|].
      rewrite Hargs. apply forallb_tail, words_space_free. }
    split; [exact Hsplit|].
    rewrite Hsplit, Hargs. apply forallb_tail, words_truthy.
  - intros n Hargs.
    assert (Hq : query = spaces (S n)).
    { subst query. rewrite Hargs. apply concat_empty_tokens. }
    split; [exact Hq|]. split; [by rewrite Hq|].
    intros Hi Hr. rewrite <- Hq. apply Hrec; [by rewrite Hq | done | done].
Qed.

Lemma web_search_joins_with_single_spaces_witness :
  split_spaces "weather today" = ["weather"; "today"] /\
  split_spaces (String.concat " " (tail (words "/websearch  weather   today ")))
  = ["weather"; "today"] /\
  web_search_coll
    (exec (web_search (reliable 5 "") (upd alice no_message)
             {| args := [""; ""] |}) empty_world)
  = [search_record (reliable 5 "") (upd alice no_message) " "].
Proof.
  split; [|split].
  - destruct (web_search_joins_with_single_spaces (reliable 5 "")
                (upd alice no_message) search_args empty_world) as (_ & H & _).
    apply H; [discriminate | reflexivity].
  - destruct (web_search_joins_with_single_spaces (reliable 5 "")
                (upd alice no_message) search_args empty_world)
      as (_ & _ & H & _).
    destruct (H "/websearch  weather   today " eq_refl) as [H1 _];
      [discriminate | exact H1].
  - destruct (web_search_joins_with_single_spaces (reliable 5 "")
                (upd alice no_message) {| args := [""; ""] |} empty_world)
      as (_ & _ & _ & H).
    destruct (H 0%nat eq_refl) as (_ & _ & H1). exact (H1 eq_refl eq_refl).
Defined.

(** ** The claims at concrete inputs *)

Lemma start_registers_once_witness :
  users (exec (start (reliable 0 "") (upd alice no_message) no_args) empty_world)
  = [user_record alice] /\
  users (exec (start (reliable 1 "") (upd alice no_message) no_args)
           (exec (start (reliable 0 "") (upd alice no_message) no_args)
              empty_world))
  = users (exec (start (reliable 0 "") (upd alice no_message) no_args)
             empty_world).
Proof.
  destruct (start_registers_once (reliable 0 "") (upd alice no_message) no_args
              empty_world eq_refl eq_refl eq_refl) as (H1 & _ & _ & H2 & _).
  split; [exact H1 | exact (H2 (reliable 1 "") (upd alice no_message) no_args eq_refl)].
Defined.

Lemma unique_chat_id_invariant_witness :
  unique_chat_id (users (handle (start_event alice) empty_world)).
Proof.
  destruct unique_chat_id_invariant as (H0 & Hstep & _).
  exact (Hstep (start_event alice) empty_world H0).
Defined.

Lemma contact_handler_spec_witness :
  (exists d',
     find_one (chat_id_query (VInt 1))
       (users (exec (contact_handler (reliable 0 "")
                       (upd alice (contact_message alice_contact)) no_args)
                 alice_registered)) = Some d' /\
     phone_number_of d' = Some (VStr "+1555")) /\
  users (exec (contact_handler (reliable 0 "")
                 (upd alice (contact_message alice_contact)) no_args)
           empty_world) = [].
Proof.
  split.
  - destruct (contact_handler_spec (reliable 0 "")
                (upd alice (contact_message alice_contact)) no_args
                alice_registered alice_contact eq_refl eq_refl eq_refl)
      as (_ & _ & _ & H & _).
    destruct (H (user_record alice) eq_refl) as (d' & H1 & H2 & _).
    exists d'. split; [exact H1 | exact H2].
  - destruct (contact_handler_spec (reliable 0 "")
                (upd alice (contact_message alice_contact)) no_args
                empty_world alice_contact eq_refl eq_refl eq_refl)
      as (_ & _ & _ & _ & _ & H & _).
    exact (H eq_refl).
Defined.

Lemma contact_handler_frame_witness :
  users (exec (contact_handler (reliable 0 "")
                 (upd alice (contact_message bob_contact)) no_args)
           both_registered) !! 0%nat = Some (user_record alice).
Proof.
  destruct (contact_handler_frame (reliable 0 "")
              (upd alice (contact_message bob_contact)) no_args
              both_registered bob_contact eq_refl) as (_ & _ & _ & H & _).
  apply H; [discriminate | reflexivity | reflexivity].
Defined.

(** * Further properties of the handlers *)

(** ** More on the store *)

Lemma find_one_insert_one (flt d : Doc) (coll : list Doc) :
  find_one flt (insert_one d coll) =
    match find_one flt coll with
    | Some x => Some x
    | None => if matches flt d then Some d else None
    end.
Proof.
  unfold insert_one. induction coll as [|d' ds IH]; cbn [app find_one].
  - by destruct (matches flt d).
  - destruct (matches flt d'); [reflexivity | exact IH].
Qed.

Lemma rows_for_cons c (d : Doc) (coll : list Doc) :
  rows_for c (d :: coll) =
    if decide (has_chat_id c d) then d :: rows_for c coll else rows_for c coll.
Proof. unfold rows_for. by rewrite filter_cons. Qed.

(** The rows of a chat id after an update keyed on that chat id: the first
    one has the fields set. *)
Lemma rows_for_update_one c (fields : Doc) (coll : list Doc) :
  fields !! "chat_id" = None ->
  rows_for c (update_one (chat_id_query (VInt c)) fields coll) =
    match rows_for c coll with
    | [] => []
    | d :: ds => (fields ∪ d) :: ds
    end.
Proof.
  intros Hf. induction coll as [|d ds IH]; cbn [update_one]; [reflexivity|].
  destruct (matches (chat_id_query (VInt c)) d) eqn:Hm.
  - apply matches_has_chat_id in Hm as Hd.
    assert (Hd' : has_chat_id c (fields ∪ d)).
    { unfold has_chat_id in *. by rewrite lookup_union_r. }
    rewrite !rows_for_cons. by rewrite !decide_True.
  - assert (Hd : ~ has_chat_id c d).
    { intros Hd. apply matches_has_chat_id in Hd. congruence. }
    rewrite !rows_for_cons. by rewrite !decide_False.
Qed.

(** A second update with the same key and fields of the same names
    overrides the first. *)
Lemma update_one_twice (flt f1 f2 : Doc) (coll : list Doc) :
  dom f1 = dom f2 ->
  (forall d, matches flt (f1 ∪ d) = matches flt d) ->
  update_one flt f2 (update_one flt f1 coll) = update_one flt f2 coll.
Proof.
  intros Hdom Hkeep. induction coll as [|d ds IH]; cbn [update_one]; [reflexivity|].
  destruct (matches flt d) eqn:Hm; cbn [update_one].
  - rewrite Hkeep, Hm. f_equal. apply map_eq. intros k.
    rewrite !lookup_union.
    destruct (f2 !! k) as [v|] eqn:H2; [by destruct (f1 !! k), (d !! k)|].
    assert (f1 !! k = None) as ->.
    { apply not_elem_of_dom. rewrite Hdom. by apply not_elem_of_dom. }
    by destruct (d !! k).
  - by rewrite Hm, IH.
Qed.

(** With one row per chat id, [find_one] returns the row of the chat id. *)
Lemma find_one_unique c (d : Doc) (coll : list Doc) :
  (length (rows_for c coll) <= 1)%nat ->
  d ∈ coll -> has_chat_id c d ->
  find_one (chat_id_query (VInt c)) coll = Some d.
Proof.
  intros Hlen Hin Hd. induction coll as [|d' ds IH]; [by apply elem_of_nil in Hin|].
  cbn [find_one]. rewrite rows_for_cons in Hlen.
  destruct (matches (chat_id_query (VInt c)) d') eqn:Hm.
  - apply matches_has_chat_id in Hm as Hd'.
    rewrite decide_True in Hlen by done. cbn [length] in Hlen.
    apply elem_of_cons in Hin as [->|Hin]; [reflexivity|].
    clear Hm IH. assert (d ∈ rows_for c ds) as Hr.
    { unfold rows_for. apply list_elem_of_filter. split; assumption. }
    destruct (rows_for c ds);
      [apply elem_of_nil in Hr; destruct Hr | cbn [length] in Hlen; lia].
  - assert (Hd' : ~ has_chat_id c d').
    { intros H. apply matches_has_chat_id in H. congruence. }
    rewrite decide_False in Hlen by done.
    apply elem_of_cons in Hin as [->|Hin]; [contradiction|].
    apply IH; assumption.
Qed.

(** ** More on registration *)

(** X1: with the store and the platform answering, [start] returns
    normally and sends the welcome text with the contact-request keyboard,
    to a new user and to a registered one alike; the registration is logged
    exactly when a row is inserted, and a registered user's row is left as
    it is. *)
Theorem start_welcomes e update context w :
  raises e users_find_one_call = None ->
  raises e users_insert_one_call = None ->
  raises e reply_text_call = None ->
  let user := effective_user update in
  let w' := exec (start e update context) w in
  outcome (start e update context) w = Ok tt /\
  outbox w' = outbox w ++ [welcome_reply update] /\
  (rows_for (u_id user) (users w) = [] ->
     logs w' = logs w ++
       [info_record ("New user registered: " +:+ format (u_username user))]) /\
  (rows_for (u_id user) (users w) <> [] ->
     logs w' = logs w /\ users w' = users w).
Proof.
  intros Hf Hi Hr user w'. subst user w'.
  destruct (find_one (chat_id_query (VInt (u_id (effective_user update))))
              (users w)) as [d|] eqn:Hfind.
  - assert (Hrows : rows_for (u_id (effective_user update)) (users w) <> []).
    { intros Hn. apply rows_for_nil_find_one in Hn. congruence. }
    split; [run_handler_cases; reflexivity|].
    split; [run_handler_cases; reflexivity|].
    split; [intros Hn; contradiction|].
    intros _. split; run_handler_cases; reflexivity.
  - apply rows_for_nil_find_one in Hfind as Hrows.
    split; [run_handler_cases; reflexivity|].
    split; [run_handler_cases; reflexivity|].
    split; [intros _; run_handler_cases; reflexivity|].
    intros Hn. contradiction.
Qed.

Lemma start_welcomes_witness :
  outbox (exec (start (reliable 0 "") (upd bob no_message) no_args) empty_world)
  = [welcome_reply (upd bob no_message)] /\
  logs (exec (start (reliable 0 "") (upd bob no_message) no_args) empty_world)
  = [info_record "New user registered: None"].
Proof.
  destruct (start_welcomes (reliable 0 "") (upd bob no_message) no_args
              empty_world eq_refl eq_refl eq_refl) as (_ & H1 & H2 & _).
  split; [exact H1 | exact (H2 eq_refl)].
Defined.

(** X2: [start] catches nothing.  When [find_one] raises, or [insert_one]
    raises for a chat id without a row, the exception leaves the handler
    and nothing at all has changed: no row, no log record, no reply.  When
    only the send of the welcome raises, the exception leaves the handler
    as well, no reply is sent, and the row inserted before it stays. *)
Theorem start_failures e update context w :
  let user := effective_user update in
  let w' := exec (start e update context) w in
  (forall x, raises e users_find_one_call = Some x ->
     outcome (start e update context) w = Raise x /\ w' = w) /\
  (forall x, raises e users_find_one_call = None ->
     rows_for (u_id user) (users w) = [] ->
     raises e users_insert_one_call = Some x ->
     outcome (start e update context) w = Raise x /\ w' = w) /\
  (forall x, raises e users_find_one_call = None ->
     raises e users_insert_one_call = None ->
     raises e reply_text_call = Some x ->
     outcome (start e update context) w = Raise x /\
     outbox w' = outbox w /\
     (rows_for (u_id user) (users w) = [] ->
        users w' = users w ++ [user_record user])).
Proof.
  intros user w'. subst user w'. split; [|split].
  - intros x Hf. split; run_handler_cases; reflexivity.
  - intros x Hf Hrows Hi. apply rows_for_nil_find_one in Hrows.
    split; run_handler_cases; reflexivity.
  - intros x Hf Hi Hr.
    split; [run_handler_cases; reflexivity|].
    split; [run_handler_cases; reflexivity|].
    intros Hrows. apply rows_for_nil_find_one in Hrows.
    run_handler_cases; reflexivity.
Qed.

Lemma start_failures_witness :
  outcome (start (failing_at reply_text_call (Exception "timed out") 0 "")
             (upd alice no_message) no_args) empty_world
  = Raise (Exception "timed out") /\
  users (exec (start (failing_at reply_text_call (Exception "timed out") 0 "")
                 (upd alice no_message) no_args) empty_world)
  = [user_record alice] /\
  exec (start (failing_at users_find_one_call (Exception "no server") 0 "")
          (upd alice no_message) no_args) empty_world = empty_world.
Proof.
  split; [|split].
  - destruct (start_failures
                (failing_at reply_text_call (Exception "timed out") 0 "")
                (upd alice no_message) no_args empty_world) as (_ & _ & H).
    destruct (H (Exception "timed out") eq_refl eq_refl eq_refl) as [H1 _].
    exact H1.
  - destruct (start_failures
                (failing_at reply_text_call (Exception "timed out") 0 "")
                (upd alice no_message) no_args empty_world) as (_ & _ & H).
    destruct (H (Exception "timed out") eq_refl eq_refl eq_refl) as (_ & _ & H1).
    exact (H1 eq_refl).
  - destruct (start_failures
                (failing_at users_find_one_call (Exception "no server") 0 "")
                (upd alice no_message) no_args empty_world) as (H & _).
    destruct (H (Exception "no server") eq_refl) as [_ H1]. exact H1.
Defined.

(** X3: registration and lookup.  After [start] for a chat id without a
    row, the store answering, the query [start] itself uses finds the
    user's row; and in every environment the rows found for any other chat
    id are what they were. *)
Theorem start_then_find_one e update context w :
  let user := effective_user update in
  let w' := exec (start e update context) w in
  (rows_for (u_id user) (users w) = [] ->
   raises e users_find_one_call = None ->
   raises e users_insert_one_call = None ->
     find_one (chat_id_query (VInt (u_id user))) (users w')
       = Some (user_record user)) /\
  (forall c, c <> u_id user ->
     find_one (chat_id_query (VInt c)) (users w')
       = find_one (chat_id_query (VInt c)) (users w)).
Proof.
  intros user w'. split.
  - intros Hrows Hf Hi. subst w'. rewrite start_fresh by done.
    rewrite find_one_insert_one.
    apply rows_for_nil_find_one in Hrows. subst user. rewrite Hrows.
    assert (matches (chat_id_query (VInt (u_id (effective_user update))))
              (user_record (effective_user update)) = true) as ->; [|reflexivity].
    apply matches_has_chat_id, user_record_chat_id.
  - intros c Hc. subst w' user.
    destruct (start_users e update context w) as [->|[_ ->]]; [reflexivity|].
    rewrite find_one_insert_one.
    destruct (find_one (chat_id_query (VInt c)) (users w)); [reflexivity|].
    set (user := effective_user update) in *.
    destruct (matches (chat_id_query (VInt c)) (user_record user)) eqn:Hm;
      [|reflexivity].
    apply matches_has_chat_id in Hm.
    pose proof (user_record_chat_id user) as Hu.
    unfold has_chat_id in *. congruence.
Qed.

Lemma start_then_find_one_witness :
  find_one (chat_id_query (VInt 2))
    (users (exec (start (reliable 0 "") (upd bob no_message) no_args)
              alice_registered)) = Some (user_record bob) /\
  find_one (chat_id_query (VInt 1))
    (users (exec (start (reliable 0 "") (upd bob no_message) no_args)
              alice_registered)) = Some (user_record alice).
Proof.
  destruct (start_then_find_one (reliable 0 "") (upd bob no_message) no_args
              alice_registered) as [H1 H2].
  split; [exact (H1 eq_refl eq_refl eq_refl)|].
  rewrite (H2 1); [reflexivity | discriminate].
Defined.

(** The rows of a chat id never get fewer, whatever the event and the
    environment. *)
Lemma handle_rows_for_length c ev w :
  (length (rows_for c (users w)) <= length (rows_for c (users (handle ev w))))%nat.
Proof.
  destruct ev as [h e update context]. unfold handle.
  destruct h; cbn [ev_handler ev_env ev_update ev_context run_handler].
  - destruct (start_users e update context w) as [->|[_ ->]]; [lia|].
    rewrite rows_for_insert_one, length_app. lia.
  - rewrite web_search_users. lia.
  - destruct (contact_handler_users e update context w) as [->|(k & _ & _ & ->)];
      [lia|].
    rewrite rows_for_update_one_length by apply phone_fields_chat_id. lia.
  - rewrite chat_handler_users. lia.
  - rewrite file_handler_users. lia.
Qed.

(** X4: registration is permanent.  Through any sequence of events, in any
    environments, a chat id keeps at least the rows it had: a registered
    user is never unregistered, and from the empty store a registered chat
    id has exactly one row for ever. *)
Theorem registration_is_permanent c evs w :
  (length (rows_for c (users w)) <= length (rows_for c (users (run evs w))))%nat /\
  (rows_for c (users w) <> [] -> rows_for c (users (run evs w)) <> []) /\
  (forall evs0,
     w = run evs0 empty_world -> rows_for c (users w) <> [] ->
     length (rows_for c (users (run evs w))) = 1%nat).
Proof.
  assert (Hmono : forall evs w,
    (length (rows_for c (users w)) <= length (rows_for c (users (run evs w))))%nat).
  { clear. intros evs. induction evs as [|ev evs IH]; intros w; [cbn; lia|].
    rewrite run_cons. etransitivity; [apply handle_rows_for_length | apply IH]. }
  split; [apply Hmono|]. split.
  - intros Hne Hnil. pose proof (Hmono evs w) as H. rewrite Hnil in H.
    destruct (rows_for c (users w)); [done | cbn [length] in H; lia].
  - intros evs0 -> Hne.
    pose proof (Hmono evs (run evs0 empty_world)) as H.
    assert (Hu : unique_chat_id (users (run evs (run evs0 empty_world)))).
    { apply run_unique, run_unique. intros k. cbn. lia. }
    specialize (Hu c).
    destruct (rows_for c (users (run evs0 empty_world))); [done|].
    cbn [length] in H. lia.
Qed.

Lemma registration_is_permanent_witness :
  rows_for 1 (users (run [contact_event (reliable 0 "") alice bob_contact;
                          start_event bob] alice_registered)) <> [].
Proof.
  destruct (registration_is_permanent 1
              [contact_event (reliable 0 "") alice bob_contact; start_event bob]
              alice_registered) as (_ & H & _).
  apply H. discriminate.
Defined.

(** ** More on contact sharing *)

(** What the handler does to the rows when [update_one] answers. *)
Lemma contact_handler_update e update context w c :
  contact (message update) = Some c ->
  raises e users_update_one_call = None ->
  users (exec (contact_handler e update context) w) =
    update_one (chat_id_query (contact_key c)) (phone_fields c) (users w).
Proof. intros Hc Hu. run_handler_cases; reflexivity. Qed.

(** X5: registration, then the contact.  For a chat id without a row, the
    store answering, [start] followed by a contact share carrying that chat
    id as its [user_id] leaves exactly one row for the chat id: the row
    [start] wrote with [phone_number] set to the shared number, its first
    name and username as registered. *)
Theorem start_then_contact e1 e2 update1 update2 context1 context2 w c :
  let user := effective_user update1 in
  rows_for (u_id user) (users w) = [] ->
  raises e1 users_find_one_call = None ->
  raises e1 users_insert_one_call = None ->
  contact (message update2) = Some c ->
  c_user_id c = Some (u_id user) ->
  raises e2 users_update_one_call = None ->
  let w2 := exec (contact_handler e2 update2 context2)
              (exec (start e1 update1 context1) w) in
  rows_for (u_id user) (users w2) = [phone_fields c ∪ user_record user] /\
  phone_number_of (phone_fields c ∪ user_record user)
    = Some (VStr (c_phone_number c)) /\
  (phone_fields c ∪ user_record user) !! "first_name"
    = Some (VStr (u_first_name user)) /\
  (phone_fields c ∪ user_record user) !! "username" = Some (py (u_username user)).
Proof.
  intros user Hrows Hf Hi Hc Hid Hu w2.
  split.
  - subst w2. rewrite (contact_handler_update _ _ _ _ c) by done.
    unfold contact_key. rewrite Hid. cbn [from_option].
    rewrite rows_for_update_one by apply phone_fields_chat_id.
    rewrite start_fresh by done. rewrite rows_for_insert_one.
    fold user. rewrite Hrows.
    rewrite decide_True by apply user_record_chat_id. reflexivity.
  - split; [apply phone_fields_set|].
    split; by rewrite phone_fields_other.
Qed.

Lemma start_then_contact_witness :
  rows_for 1
    (users (exec (contact_handler (reliable 1 "")
                    (upd alice (contact_message alice_contact)) no_args)
              (exec (start (reliable 0 "") (upd alice no_message) no_args)
                 empty_world)))
  = [phone_fields alice_contact ∪ user_record alice].
Proof.
  destruct (start_then_contact (reliable 0 "") (reliable 1 "")
              (upd alice no_message) (upd alice (contact_message alice_contact))
              no_args no_args empty_world alice_contact
              eq_refl eq_refl eq_refl eq_refl eq_refl eq_refl) as [H _].
  exact H.
Defined.

(** X6: the contact, then registration.  A contact share for a chat id
    without a row is lost: a later [start] for that chat id writes a row
    that has no [phone_number]. *)
Theorem contact_before_start_is_lost e1 e2 update1 update2 context1 context2 w c :
  let user := effective_user update2 in
  rows_for (u_id user) (users w) = [] ->
  contact (message update1) = Some c ->
  c_user_id c = Some (u_id user) ->
  raises e2 users_find_one_call = None ->
  raises e2 users_insert_one_call = None ->
  let w2 := exec (start e2 update2 context2)
              (exec (contact_handler e1 update1 context1) w) in
  users w2 = users w ++ [user_record user] /\
  rows_for (u_id user) (users w2) = [user_record user] /\
  phone_number_of (user_record user) = None.
Proof.
  intros user Hrows Hc Hid Hf Hi w2.
  assert (H1 : users (exec (contact_handler e1 update1 context1) w) = users w).
  { destruct (contact_handler_users e1 update1 context1 w)
      as [H|(c' & Hc' & _ & H)]; [exact H|].
    rewrite H. assert (c' = c) as -> by congruence.
    apply update_one_no_match. unfold contact_key. rewrite Hid.
    cbn [from_option]. by apply rows_for_nil_find_one. }
  assert (H2 : users w2 = users w ++ [user_record user]).
  { subst w2. rewrite start_fresh; [by rewrite H1 | by rewrite H1 | done | done]. }
  split; [exact H2|]. split; [|reflexivity].
  rewrite H2. fold (insert_one (user_record user) (users w)).
  rewrite rows_for_insert_one, Hrows.
  rewrite decide_True by apply user_record_chat_id. reflexivity.
Qed.

Lemma contact_before_start_is_lost_witness :
  rows_for 1
    (users (exec (start (reliable 1 "") (upd alice no_message) no_args)
              (exec (contact_handler (reliable 0 "")
                       (upd alice (contact_message alice_contact)) no_args)
                 empty_world)))
  = [user_record alice].
Proof.
  destruct (contact_before_start_is_lost (reliable 0 "") (reliable 1 "")
              (upd alice (contact_message alice_contact)) (upd alice no_message)
              no_args no_args empty_world alice_contact
              eq_refl eq_refl eq_refl eq_refl eq_refl) as (_ & H & _).
  exact H.
Defined.

(** X7: the last share wins.  Two contact shares with the same [user_id],
    the store answering both, leave the rows as the second share alone
    would; in particular sharing the same contact twice is the same as
    sharing it once. *)
Theorem contact_last_share_wins e1 e2 update1 update2 context1 context2 w c1 c2 :
  contact (message update1) = Some c1 ->
  contact (message update2) = Some c2 ->
  c_user_id c1 = c_user_id c2 ->
  raises e1 users_update_one_call = None ->
  raises e2 users_update_one_call = None ->
  users (exec (contact_handler e2 update2 context2)
           (exec (contact_handler e1 update1 context1) w))
  = users (exec (contact_handler e2 update2 context2) w).
Proof.
  intros Hc1 Hc2 Hid Hu1 Hu2.
  rewrite (contact_handler_update e2 update2 context2 _ c2) by done.
  rewrite (contact_handler_update e1 update1 context1 _ c1) by done.
  rewrite (contact_handler_update e2 update2 context2 _ c2) by done.
  assert (Hkey : contact_key c1 = contact_key c2).
  { unfold contact_key. by rewrite Hid. }
  rewrite Hkey. apply update_one_twice.
  - unfold phone_fields. by rewrite !dom_singleton_L.
  - intros d. rewrite !matches_chat_id_query.
    by rewrite phone_fields_keep_chat_id.
Qed.

Lemma contact_last_share_wins_witness :
  rows_for 1
    (users (exec (contact_handler (reliable 1 "")
                    (upd alice (contact_message alice_new_contact)) no_args)
              (exec (contact_handler (reliable 0 "")
                       (upd alice (contact_message alice_contact)) no_args)
                 alice_registered)))
  = [phone_fields alice_new_contact ∪ user_record alice].
Proof.
  rewrite (contact_last_share_wins (reliable 0 "") (reliable 1 "")
             (upd alice (contact_message alice_contact))
             (upd alice (contact_message alice_new_contact))
             no_args no_args alice_registered alice_contact alice_new_contact
             eq_refl eq_refl eq_refl eq_refl eq_refl).
  reflexivity.
Defined.

(** X8: [contact_handler] catches nothing.  When [update_one] raises, the
    exception leaves the handler and nothing at all has changed: no phone
    number stored, no thank-you sent.  When only the send of the thank-you
    raises, the exception leaves the handler as well, no reply is sent, and
    the phone number stored before it stays. *)
Theorem contact_handler_failures e update context w c :
  contact (message update) = Some c ->
  let w' := exec (contact_handler e update context) w in
  (forall x, raises e users_update_one_call = Some x ->
     outcome (contact_handler e update context) w = Raise x /\ w' = w) /\
  (forall x, raises e users_update_one_call = None ->
     raises e reply_text_call = Some x ->
     outcome (contact_handler e update context) w = Raise x /\
     outbox w' = outbox w /\
     users w' =
       update_one (chat_id_query (contact_key c)) (phone_fields c) (users w)).
Proof.
  intros Hc w'. subst w'. split.
  - intros x Hu. split; run_handler_cases; reflexivity.
  - intros x Hu Hr. repeat split; run_handler_cases; reflexivity.
Qed.

Lemma contact_handler_failures_witness :
  outcome (contact_handler
             (failing_at reply_text_call (Exception "timed out") 0 "")
             (upd alice (contact_message alice_contact)) no_args)
    alice_registered = Raise (Exception "timed out") /\
  rows_for 1
    (users (exec (contact_handler
                    (failing_at reply_text_call (Exception "timed out") 0 "")
                    (upd alice (contact_message alice_contact)) no_args)
              alice_registered))
  = [phone_fields alice_contact ∪ user_record alice].
Proof.
  destruct (contact_handler_failures
              (failing_at reply_text_call (Exception "timed out") 0 "")
              (upd alice (contact_message alice_contact)) no_args
              alice_registered alice_contact eq_refl) as [_ H].
  destruct (H (Exception "timed out") eq_refl eq_refl) as (H1 & _ & H2).
  split; [exact H1|]. rewrite H2. reflexivity.
Defined.

(** ** More on the chat handler *)

(** With a message in the update, the handler returns normally whenever
    the send of the apology answers, and an exception that leaves it is the
    one that send raised, after an earlier failure. *)
Lemma chat_handler_with_message e update context w :
  (raises e reply_text_except_call = None ->
     outcome (chat_handler e update context) w = Ok tt) /\
  (forall y, outcome (chat_handler e update context) w = Raise y ->
     raises e reply_text_except_call = Some y /\
     ((exists x, gemini_chat e (py (text (message update))) = inl x) \/
      (exists x, raises e chat_history_insert_one_call = Some x) \/
      (exists x, raises e reply_text_call = Some x))).
Proof.
  split.
  - intros Hr. run_handler_cases; reflexivity.
  - intros y. run_handler_cases; intros Hy; try discriminate Hy;
      injection Hy as <-; (split; [reflexivity|]); eauto.
Qed.

(** X9: the two exceptions that leave the chat handler.  When the update
    carries no message (an edited message, a channel post), the first line
    raises before the [try] and nothing has changed: no record, no log
    entry, no reply.  When it carries one, the handler returns normally
    whenever the send of the apology answers.  And an exception that leaves
    the handler is one of these two: the missing message, or the exception
    the send of the apology raised after a failure of the generative call,
    the insert or the reply. *)
Theorem chat_handler_escapes e raw context w :
  let no_text := Exception "'NoneType' object has no attribute 'text'" in
  (raw_message raw = None ->
     outcome (chat_handler_raw e raw context) w = Raise no_text /\
     exec (chat_handler_raw e raw context) w = w) /\
  (forall m, raw_message raw = Some m ->
     raises e reply_text_except_call = None ->
     outcome (chat_handler_raw e raw context) w = Ok tt) /\
  (forall y, outcome (chat_handler_raw e raw context) w = Raise y ->
     (raw_message raw = None /\ y = no_text) \/
     (exists m, raw_message raw = Some m /\
        raises e reply_text_except_call = Some y /\
        ((exists x, gemini_chat e (py (text m)) = inl x) \/
         (exists x, raises e chat_history_insert_one_call = Some x) \/
         (exists x, raises e reply_text_call = Some x)))).
Proof.
  intros no_text. unfold chat_handler_raw.
  destruct (raw_message raw) as [m|]; split; [|split| |split].
  - discriminate.
  - intros m' [= <-] Hr.
    by apply (chat_handler_with_message e _ context w).
  - intros y Hy. right. exists m. split; [reflexivity|].
    by apply (chat_handler_with_message e _ context w) in Hy.
  - intros _. split; reflexivity.
  - discriminate.
  - intros y Hy. left. split; [reflexivity|].
    unfold outcome, raise in Hy. cbn [fst] in Hy.
    injection Hy as <-. reflexivity.
Qed.

Lemma chat_handler_escapes_witness :
  exec (chat_handler_raw (reliable 7 "hi there") edited_hello no_args)
    empty_world = empty_world /\
  outcome (chat_handler_raw
             (failing_at chat_history_insert_one_call (Exception "not primary")
                7 "hi there") raw_hello no_args) empty_world = Ok tt.
Proof.
  split.
  - destruct (chat_handler_escapes (reliable 7 "hi there") edited_hello no_args
                empty_world) as (H & _).
    destruct (H eq_refl) as [_ H1]. exact H1.
  - destruct (chat_handler_escapes
                (failing_at chat_history_insert_one_call
                   (Exception "not primary") 7 "hi there")
                raw_hello no_args empty_world) as (_ & H & _).
    exact (H (text_message "hello") eq_refl eq_refl).
Defined.

(** ** More on the web search handler *)

Lemma concat_space_empty (ts : list string) :
  String.concat " " ts = "" <-> ts = [] \/ ts = [""].
Proof.
  split.
  - destruct ts as [|t [|t2 ts]]; [by left | |].
    + cbn [String.concat]. intros ->. by right.
    + change (String.concat " " (t :: t2 :: ts))
        with (t +:+ " " +:+ String.concat " " (t2 :: ts)).
      destruct t; [|rewrite append_cons]; discriminate.
  - intros [->| ->]; reflexivity.
Qed.

(** X10: the usage branch.  The joined query is empty exactly when there is
    no argument or the one argument is the empty string; in both cases, and
    in no other, the handler sends the usage text, the platform answering,
    and writes no record; the usage reply is outside the [try], so when its
    send raises the exception leaves the handler, with nothing logged. *)
Theorem web_search_usage e update context w :
  let w' := exec (web_search e update context) w in
  (join_args context = "" <-> args context = [] \/ args context = [""]) /\
  (args context = [] \/ args context = [""] ->
     web_search_coll w' = web_search_coll w /\
     logs w' = logs w /\
     (raises e reply_text_call = None ->
        outcome (web_search e update context) w = Ok tt /\
        outbox w' = outbox w ++ [plain_reply update usage_text]) /\
     (forall x, raises e reply_text_call = Some x ->
        outcome (web_search e update context) w = Raise x /\
        outbox w' = outbox w)) /\
  (args context <> [] -> args context <> [""] ->
   raises e reply_text_call = None ->
     outbox w' <> outbox w ++ [plain_reply update usage_text]).
Proof.
  intros w'. split; [apply concat_space_empty|]. split.
  - intros Hargs. apply concat_space_empty in Hargs.
    fold (join_args context) in Hargs. apply truthy_str_false in Hargs.
    subst w'. repeat split; try intros x Hr; try intros Hr;
      run_handler_cases; reflexivity.
  - intros H1 H2 Hr.
    assert (Hq : join_args context <> "").
    { intros Hq. apply concat_space_empty in Hq. tauto. }
    apply truthy_str_true in Hq. subst w'.
    run_handler_cases; intros Heq;
      first
        [ apply (f_equal length) in Heq; rewrite length_app in Heq;
          cbn [length] in Heq; lia
        | apply app_inv_head in Heq; injection Heq as Heq;
          unfold results_for in Heq; rewrite ?append_cons in Heq;
          discriminate Heq ].
Qed.

Lemma web_search_usage_witness :
  outbox (exec (web_search (reliable 5 "") (upd alice no_message)
                  {| args := [""] |}) empty_world)
  = [plain_reply (upd alice no_message) usage_text] /\
  outbox (exec (web_search (reliable 5 "") (upd alice no_message) search_args)
            empty_world)
  <> [plain_reply (upd alice no_message) usage_text].
Proof.
  split.
  - destruct (web_search_usage (reliable 5 "") (upd alice no_message)
                {| args := [""] |} empty_world) as (_ & H & _).
    destruct (H (or_intror eq_refl)) as (_ & _ & H1 & _).
    destruct (H1 eq_refl) as [_ H2]. exact H2.
  - destruct (web_search_usage (reliable 5 "") (upd alice no_message)
                search_args empty_world) as (_ & _ & H).
    apply H; [discriminate | discriminate | reflexivity].
Defined.

(** X11: failures of a search.  With a non-empty query, a failing insert is
    caught: no record, the failure logged as a web search error, the
    apology sent; a failing send of the results is caught as well, the
    record written before it staying; and whenever the send of the apology
    answers the handler returns normally. *)
Theorem web_search_failures e update context w :
  join_args context <> "" ->
  let query := join_args context in
  let w' := exec (web_search e update context) w in
  (forall x, raises e web_search_insert_one_call = Some x ->
     web_search_coll w' = web_search_coll w /\
     logs w' = logs w ++ [error_record ("Web search error: " +:+ exn_msg x)] /\
     (raises e reply_text_except_call = None ->
        outbox w' = outbox w ++ [plain_reply update search_apology])) /\
  (forall x, raises e web_search_insert_one_call = None ->
     raises e reply_text_call = Some x ->
     web_search_coll w' = web_search_coll w ++ [search_record e update query] /\
     logs w' = logs w ++ [error_record ("Web search error: " +:+ exn_msg x)] /\
     (raises e reply_text_except_call = None ->
        outbox w' = outbox w ++ [plain_reply update search_apology])) /\
  (raises e reply_text_except_call = None ->
     outcome (web_search e update context) w = Ok tt).
Proof.
  intros Hq query w'. subst query w'. apply truthy_str_true in Hq.
  split; [|split].
  - intros x Hi. repeat split; try intros Hr; run_handler_cases; reflexivity.
  - intros x Hi Hr. repeat split; try intros Hr'; run_handler_cases; reflexivity.
  - intros Hr. run_handler_cases; reflexivity.
Qed.

Lemma web_search_failures_witness :
  web_search_coll
    (exec (web_search
             (failing_at web_search_insert_one_call (Exception "not primary") 5 "")
             (upd alice no_message) search_args) empty_world) = [] /\
  outbox
    (exec (web_search
             (failing_at web_search_insert_one_call (Exception "not primary") 5 "")
             (upd alice no_message) search_args) empty_world)
  = [plain_reply (upd alice no_message) search_apology].
Proof.
  assert (Hq : join_args search_args <> "") by discriminate.
  destruct (web_search_failures
              (failing_at web_search_insert_one_call (Exception "not primary") 5 "")
              (upd alice no_message) search_args empty_world Hq) as (H & _ & _).
  destruct (H (Exception "not primary") eq_refl) as (H1 & _ & H2).
  split; [exact H1 | exact (H2 eq_refl)].
Defined.

(** ** More on the file handler *)

(** X12: a file that goes through.  With every call answering, the handler
    downloads the file, appends one FileRecord and replies with the
    description: for a document with a declared name the record and the
    reply carry that name, for a photo they carry "photo.jpg"; the
    description is always the fixed template around the name. *)
Theorem file_handler_analyses e update context w file :
  chosen_file (message update) = Some file ->
  (forall c, raises e c = None) ->
  let w' := exec (file_handler e update context) w in
  let name := display_file_name file in
  outcome (file_handler e update context) w = Ok tt /\
  downloads w' = downloads w ++ [attr_file_id file] /\
  files w' = files w ++ [file_record e update name] /\
  file_record e update name !! "file_name" = Some (py name) /\
  file_record e update name !! "description" = Some (VStr (analysis_of name)) /\
  outbox w' =
    outbox w ++ [plain_reply update ("File analyzed: " +:+ analysis_of name)] /\
  (forall d s, file = ADocument d -> d_file_name d = Some s -> name = Some s) /\
  (forall p, file = APhotoSize p -> name = Some "photo.jpg").
Proof.
  intros Hfile Hall w' name.
  destruct (file_handler_success e update context w file Hfile Hall)
    as (H1 & H2 & H3).
  split; [exact H3|]. split.
  { subst w'. pose proof (Hall get_file_call). pose proof (Hall download_call).
    pose proof (Hall files_insert_one_call). pose proof (Hall reply_text_call).
    run_handler_cases; reflexivity. }
  split; [exact H1|]. split; [reflexivity|]. split; [reflexivity|].
  split; [exact H2|]. split.
  - intros d s -> Hs. subst name. by rewrite display_file_name_document.
  - intros p ->. reflexivity.
Qed.

Lemma file_handler_analyses_witness :
  files (exec (file_handler (reliable 3 "")
                 (upd alice (document_message report_document)) no_args)
           empty_world)
  = [file_record (reliable 3 "") (upd alice (document_message report_document))
       (Some "report.pdf")] /\
  outbox (exec (file_handler (reliable 3 "")
                  (upd alice (photo_message two_photos)) no_args) empty_world)
  = [plain_reply (upd alice (photo_message two_photos))
       "File analyzed: Analysis of photo.jpg completed by Gemini AI."].
Proof.
  split.
  - destruct (file_handler_analyses (reliable 3 "")
                (upd alice (document_message report_document)) no_args
                empty_world (ADocument report_document) eq_refl
                (fun _ => eq_refl)) as (_ & _ & H & _).
    exact H.
  - destruct (file_handler_analyses (reliable 3 "")
                (upd alice (photo_message two_photos)) no_args
                empty_world (APhotoSize {| p_file_id := "large" |}) eq_refl
                (fun _ => eq_refl)) as (_ & _ & _ & _ & _ & H & _).
    exact H.
Defined.

(** X13: which file is analysed.  A document wins over the photos; without
    a document it is the last photo size of the list; and with neither the
    index [-1] raises before the [try]: the exception leaves the handler
    and nothing is downloaded, stored, logged or sent. *)
Theorem file_handler_selection e update context w :
  (forall d, document (message update) = Some d ->
     chosen_file (message update) = Some (ADocument d)) /\
  (forall ps p, document (message update) = None ->
     photo (message update) = ps ++ [p] ->
     chosen_file (message update) = Some (APhotoSize p)) /\
  (document (message update) = None -> photo (message update) = [] ->
     outcome (file_handler e update context) w
       = Raise (Exception "list index out of range") /\
     exec (file_handler e update context) w = w).
Proof.
  split; [|split].
  - intros d Hd. unfold chosen_file. by rewrite Hd.
  - intros ps p Hd Hp. unfold chosen_file. rewrite Hd, Hp.
    by rewrite last_snoc.
  - intros Hd Hp.
    assert (Hc : chosen_file (message update) = None).
    { unfold chosen_file. by rewrite Hd, Hp. }
    split; run_handler_cases; reflexivity.
Qed.

Lemma file_handler_selection_witness :
  chosen_file (photo_message two_photos)
  = Some (APhotoSize {| p_file_id := "large" |}) /\
  exec (file_handler (reliable 3 "") (upd alice no_message) no_args) empty_world
  = empty_world.
Proof.
  split.
  - destruct (file_handler_selection (reliable 3 "")
                (upd alice (photo_message two_photos)) no_args empty_world)
      as (_ & H & _).
    exact (H [ {| p_file_id := "small" |} ] {| p_file_id := "large" |}
             eq_refl eq_refl).
  - destruct (file_handler_selection (reliable 3 "") (upd alice no_message)
                no_args empty_world) as (_ & _ & H).
    destruct (H eq_refl eq_refl) as [_ H1]. exact H1.
Defined.

(** X14: the download is not undone.  Once fetching and downloading
    answered, the file stays in local storage whatever happens next: a
    failing insert, a failing reply, a failing apology.  And the handler
    never writes a record for a file it did not download. *)
Theorem file_handler_download_stays e update context w file :
  chosen_file (message update) = Some file ->
  let w' := exec (file_handler e update context) w in
  (raises e get_file_call = None -> raises e download_call = None ->
     downloads w' = downloads w ++ [attr_file_id file]) /\
  (files w' <> files w ->
     downloads w' = downloads w ++ [attr_file_id file] /\
     files w' = files w ++ [file_record e update (display_file_name file)]).
Proof.
  intros Hfile w'. subst w'. split.
  - intros Hg Hd. run_handler_cases; reflexivity.
  - run_handler_cases; intros Hne; try (by destruct Hne); split; reflexivity.
Qed.

Lemma file_handler_download_stays_witness :
  downloads
    (exec (file_handler
             (failing_at files_insert_one_call (Exception "not primary") 3 "")
             (upd alice (document_message report_document)) no_args)
       empty_world) = ["doc-2"].
Proof.
  destruct (file_handler_download_stays
              (failing_at files_insert_one_call (Exception "not primary") 3 "")
              (upd alice (document_message report_document)) no_args
              empty_world (ADocument report_document) eq_refl) as [H _].
  exact (H eq_refl eq_refl).
Defined.

(** ** All handlers, any event *)

(** X15: one reply per event, or none and an exception.  Whatever the
    event and the environment, either the handler returns normally and has
    sent exactly one reply, to the chat the update came from, or an
    exception leaves it and it has sent none. *)
Theorem one_reply_or_exception ev w :
  (handle_outcome ev w = Ok tt /\
   exists r, outbox (handle ev w) = outbox w ++ [r] /\
             to_chat r = effective_chat_id (ev_update ev)) \/
  (exists x, handle_outcome ev w = Raise x /\ outbox (handle ev w) = outbox w).
Proof.
  destruct ev as [h e update context]. unfold handle_outcome, handle.
  destruct h; cbn [ev_handler ev_env ev_update ev_context];
    run_handler_cases;
    first [ left; split; [reflexivity | eexists; split; reflexivity]
          | right; eexists; split; reflexivity ].
Qed.

(** Which collections a handler leaves alone, in every environment. *)
Lemma handlers_other_collections e update context w :
  (chat_history (exec (start e update context) w) = chat_history w /\
   files (exec (start e update context) w) = files w /\
   web_search_coll (exec (start e update context) w) = web_search_coll w) /\
  (chat_history (exec (contact_handler e update context) w) = chat_history w /\
   files (exec (contact_handler e update context) w) = files w /\
   web_search_coll (exec (contact_handler e update context) w)
     = web_search_coll w) /\
  (files (exec (chat_handler e update context) w) = files w /\
   web_search_coll (exec (chat_handler e update context) w) = web_search_coll w) /\
  (chat_history (exec (file_handler e update context) w) = chat_history w /\
   web_search_coll (exec (file_handler e update context) w) = web_search_coll w) /\
  (chat_history (exec (web_search e update context) w) = chat_history w /\
   files (exec (web_search e update context) w) = files w).
Proof. repeat split; run_handler_cases; reflexivity. Qed.

(** What a handler does to its own collection, in every environment. *)
Lemma file_handler_files e update context w :
  files (exec (file_handler e update context) w) = files w \/
  exists name, files (exec (file_handler e update context) w)
               = files w ++ [file_record e update name].
Proof.
  run_handler_cases;
    first [ by left | right; eexists; reflexivity ].
Qed.

Lemma web_search_records e update context w :
  web_search_coll (exec (web_search e update context) w) = web_search_coll w \/
  (join_args context <> "" /\
   web_search_coll (exec (web_search e update context) w)
   = web_search_coll w ++ [search_record e update (join_args context)]).
Proof.
  destruct (truthy_str (join_args context)) eqn:Hq.
  - apply truthy_str_true in Hq as Hne.
    run_handler_cases; first [ by left | by right ].
  - left. run_handler_cases; reflexivity.
Qed.

(** X16: each handler writes to its own collection only.  In every
    environment, [start] and [contact_handler] leave the chat history, the
    files and the searches as they are; [chat_handler] leaves the users,
    the files and the searches; [file_handler] the users, the chat history
    and the searches; [web_search] the users, the chat history and the
    files. *)
Theorem handlers_write_their_own_collection e update context w :
  (chat_history (exec (start e update context) w) = chat_history w /\
   files (exec (start e update context) w) = files w /\
   web_search_coll (exec (start e update context) w) = web_search_coll w) /\
  (chat_history (exec (contact_handler e update context) w) = chat_history w /\
   files (exec (contact_handler e update context) w) = files w /\
   web_search_coll (exec (contact_handler e update context) w)
     = web_search_coll w) /\
  (users (exec (chat_handler e update context) w) = users w /\
   files (exec (chat_handler e update context) w) = files w /\
   web_search_coll (exec (chat_handler e update context) w) = web_search_coll w) /\
  (users (exec (file_handler e update context) w) = users w /\
   chat_history (exec (file_handler e update context) w) = chat_history w /\
   web_search_coll (exec (file_handler e update context) w) = web_search_coll w) /\
  (users (exec (web_search e update context) w) = users w /\
   chat_history (exec (web_search e update context) w) = chat_history w /\
   files (exec (web_search e update context) w) = files w).
Proof.
  pose proof (handlers_other_collections e update context w)
    as ((?&?&?) & (?&?&?) & (?&?) & (?&?) & (?&?)).
  pose proof (chat_handler_users e update context w).
  pose proof (file_handler_users e update context w).
  pose proof (web_search_users e update context w).
  repeat split; assumption.
Qed.

(** One event: every collection keeps what it had, and the four together
    gain at most one document. *)
Lemma handle_collections ev w :
  (length (users w) <= length (users (handle ev w)))%nat /\
  chat_history w `prefix_of` chat_history (handle ev w) /\
  files w `prefix_of` files (handle ev w) /\
  web_search_coll w `prefix_of` web_search_coll (handle ev w) /\
  (records w <= records (handle ev w) <= S (records w))%nat.
Proof.
  destruct ev as [h e update context]. unfold handle, records.
  pose proof (handlers_other_collections e update context w)
    as ((S1&S2&S3) & (C1&C2&C3) & (T1&T2) & (F1&F2) & (W1&W2)).
  destruct h; cbn [ev_handler ev_env ev_update ev_context run_handler].
  - rewrite S1, S2, S3.
    destruct (start_users e update context w) as [->|[_ ->]];
      unfold insert_one; rewrite ?length_app; cbn [length];
      repeat split; try reflexivity; lia.
  - rewrite W1, W2, web_search_users.
    destruct (web_search_records e update context w) as [->|[_ ->]];
      rewrite ?length_app; cbn [length];
      repeat split; try reflexivity; try (by apply prefix_app_r); lia.
  - rewrite C1, C2, C3.
    destruct (contact_handler_users e update context w) as [->|(c & _ & _ & ->)];
      rewrite ?length_update_one;
      repeat split; try reflexivity; lia.
  - rewrite T1, T2, chat_handler_users.
    destruct (chat_handler_history e update context w) as [->|(r & _ & ->)];
      rewrite ?length_app; cbn [length];
      repeat split; try reflexivity; try (by apply prefix_app_r); lia.
  - rewrite F1, F2, file_handler_users.
    destruct (file_handler_files e update context w) as [->|(name & ->)];
      rewrite ?length_app; cbn [length];
      repeat split; try reflexivity; try (by apply prefix_app_r); lia.
Qed.

(** X17: the logs are append-only.  Through any sequence of events, in any
    environments, the chat history, the files and the searches only grow at
    their end: every document once written is still there, unchanged and at
    its place; and no row of the users is ever removed. *)
Theorem collections_only_grow evs w :
  (length (users w) <= length (users (run evs w)))%nat /\
  chat_history w `prefix_of` chat_history (run evs w) /\
  files w `prefix_of` files (run evs w) /\
  web_search_coll w `prefix_of` web_search_coll (run evs w).
Proof.
  revert w. induction evs as [|ev evs IH]; intros w.
  - cbn. repeat split; reflexivity.
  - rewrite run_cons.
    destruct (handle_collections ev w) as (H1 & H2 & H3 & H4 & _).
    destruct (IH (handle ev w)) as (I1 & I2 & I3 & I4).
    repeat split; [lia | | |]; etransitivity; eassumption.
Qed.

(** X18: at most one write per event.  One event adds at most one document
    to the four collections together and removes none, so a sequence of
    events adds at most as many documents as it has events. *)
Theorem at_most_one_record_per_event evs w :
  (records w <= records (run evs w) <= records w + length evs)%nat.
Proof.
  revert w. induction evs as [|ev evs IH]; intros w.
  - cbn [run foldl length]. lia.
  - rewrite run_cons.
    destruct (handle_collections ev w) as (_ & _ & _ & _ & H).
    specialize (IH (handle ev w)). cbn [length]. lia.
Qed.

(** ** The shape of the stored documents *)

(** A document without [_id] whose fields are [fs]. *)
Lemma own_fields_dom (d : Doc) (fs : gset string) :
  dom d = fs -> "_id" ∉ fs -> own_fields d = fs.
Proof. unfold own_fields. intros -> Hid. set_solver. Qed.

Lemma own_fields_subseteq (d : Doc) (fs : gset string) :
  dom d ⊆ fs -> own_fields d ⊆ fs.
Proof. unfold own_fields. set_solver. Qed.

Ltac not_the_id :=
  rewrite ?not_elem_of_union, ?not_elem_of_singleton;
  repeat split; discriminate.

Lemma user_record_ok (u : User) : user_row_ok (user_record u).
Proof.
  unfold user_row_ok. split; [exists (u_id u); reflexivity|].
  split; [exists (u_first_name u); reflexivity|].
  split; [exists (u_username u); reflexivity|].
  split; [left; reflexivity|].
  apply own_fields_subseteq.
  unfold user_record. rewrite !dom_insert_L, dom_singleton_L. set_solver.
Qed.

Lemma phone_fields_ok (c : Contact) (d : Doc) :
  user_row_ok d -> user_row_ok (phone_fields c ∪ d).
Proof.
  intros ([k Hk] & [s Hs] & [o Ho] & _ & Hdom). unfold user_row_ok.
  split; [exists k; unfold has_chat_id in *; by rewrite phone_fields_other|].
  split; [exists s; by rewrite phone_fields_other|].
  split; [exists o; by rewrite phone_fields_other|].
  split; [right; exists (c_phone_number c); apply phone_fields_set|].
  unfold own_fields in *. rewrite dom_union_L. unfold phone_fields.
  rewrite dom_singleton_L. set_solver.
Qed.

Lemma Forall_update_one (P : Doc -> Prop) (flt fields : Doc) (coll : list Doc) :
  (forall d, P d -> P (fields ∪ d)) ->
  Forall P coll -> Forall P (update_one flt fields coll).
Proof.
  intros Hset Hall.
  induction Hall as [|d ds Hd Hds IH]; cbn [update_one]; [constructor|].
  destruct (matches flt d); constructor; auto.
Qed.

Lemma handle_user_rows ev w :
  Forall user_row_ok (users w) -> Forall user_row_ok (users (handle ev w)).
Proof.
  intros Hw. destruct ev as [h e update context]. unfold handle.
  destruct h; cbn [ev_handler ev_env ev_update ev_context run_handler].
  - destruct (start_users e update context w) as [->|[_ ->]]; [exact Hw|].
    unfold insert_one. apply Forall_app. split; [exact Hw|].
    constructor; [apply user_record_ok | constructor].
  - by rewrite web_search_users.
  - destruct (contact_handler_users e update context w) as [->|(c & _ & _ & ->)];
      [exact Hw|].
    apply Forall_update_one; [apply phone_fields_ok | exact Hw].
  - by rewrite chat_handler_users.
  - by rewrite file_handler_users.
Qed.

Lemma run_user_rows evs w :
  Forall user_row_ok (users w) -> Forall user_row_ok (users (run evs w)).
Proof.
  revert w. induction evs as [|ev evs IH]; intros w Hw; [exact Hw|].
  rewrite run_cons. by apply IH, handle_user_rows.
Qed.

(** X19: the shape of the users.  From the empty store, after any sequence
    of events in any environments, every row of the users has an integer
    chat id, a first name and a username (possibly null), and, apart from
    the [_id] the store adds, no other field but at most a phone number,
    which is then a string; every event preserves this. *)
Theorem user_rows_well_formed :
  (forall ev w, Forall user_row_ok (users w) ->
                Forall user_row_ok (users (handle ev w))) /\
  (forall evs, Forall user_row_ok (users (run evs empty_world))).
Proof.
  split; [exact handle_user_rows|].
  intros evs. apply run_user_rows. constructor.
Qed.

Lemma user_rows_well_formed_witness :
  Forall user_row_ok
    (users (handle (contact_event (reliable 0 "") alice alice_contact)
              alice_registered)).
Proof.
  destruct user_rows_well_formed as [H1 H2].
  apply H1. exact (H2 [start_event alice]).
Defined.

Lemma chat_record_ok e update r : chat_row_ok (chat_record e update r).
Proof.
  unfold chat_row_ok. split; [|by eexists].
  apply own_fields_dom; [|not_the_id].
  unfold chat_record. rewrite !dom_insert_L, dom_singleton_L. set_solver.
Qed.

Lemma file_record_ok e update name : file_row_ok (file_record e update name).
Proof.
  unfold file_row_ok. split.
  { apply own_fields_dom; [|not_the_id].
    unfold file_record. rewrite !dom_insert_L, dom_singleton_L. set_solver. }
  exists name. by split.
Qed.

Lemma search_record_ok e update q : q <> "" -> search_row_ok (search_record e update q).
Proof.
  intros Hq. unfold search_row_ok. split.
  { apply own_fields_dom; [|not_the_id].
    unfold search_record. rewrite !dom_insert_L, dom_singleton_L. set_solver. }
  exists q. by repeat split.
Qed.

Lemma handle_log_rows ev w :
  Forall chat_row_ok (chat_history w) /\ Forall file_row_ok (files w) /\
    Forall search_row_ok (web_search_coll w) ->
  Forall chat_row_ok (chat_history (handle ev w)) /\
    Forall file_row_ok (files (handle ev w)) /\
    Forall search_row_ok (web_search_coll (handle ev w)).
Proof.
  intros (Hc & Hf & Hs). destruct ev as [h e update context]. unfold handle.
  pose proof (handlers_other_collections e update context w)
    as ((S1&S2&S3) & (C1&C2&C3) & (T1&T2) & (F1&F2) & (W1&W2)).
  destruct h; cbn [ev_handler ev_env ev_update ev_context run_handler].
  - by rewrite S1, S2, S3.
  - rewrite W1, W2. split; [done|]. split; [done|].
    destruct (web_search_records e update context w) as [->|[Hq ->]]; [done|].
    apply Forall_app. split; [done|].
    constructor; [by apply search_record_ok | constructor].
  - by rewrite C1, C2, C3.
  - rewrite T1, T2. split; [|done].
    destruct (chat_handler_history e update context w) as [->|(r & _ & ->)];
      [done|].
    apply Forall_app. split; [done|].
    constructor; [apply chat_record_ok | constructor].
  - rewrite F1, F2. split; [done|]. split; [|done].
    destruct (file_handler_files e update context w) as [->|(name & ->)]; [done|].
    apply Forall_app. split; [done|].
    constructor; [apply file_record_ok | constructor].
Qed.

(** X20: the shape of the logs.  From the empty store, after any sequence
    of events in any environments, and apart from the [_id] the store adds:
    every chat history document has exactly the fields chat_id, user_input,
    bot_response, timestamp, the timestamp a datetime; every file document
    has exactly file_name, chat_id, description, timestamp, the description
    being the template around its own file name; every search document has
    exactly chat_id, query, results, timestamp, with a non-empty query and
    the template around it as results.  No empty query is ever stored. *)
Theorem log_rows_well_formed evs :
  Forall chat_row_ok (chat_history (run evs empty_world)) /\
  Forall file_row_ok (files (run evs empty_world)) /\
  Forall search_row_ok (web_search_coll (run evs empty_world)).
Proof.
  assert (H : forall evs w,
    Forall chat_row_ok (chat_history w) /\ Forall file_row_ok (files w) /\
      Forall search_row_ok (web_search_coll w) ->
    Forall chat_row_ok (chat_history (run evs w)) /\
      Forall file_row_ok (files (run evs w)) /\
      Forall search_row_ok (web_search_coll (run evs w))).
  { clear. intros evs. induction evs as [|ev evs IH]; intros w Hw; [exact Hw|].
    rewrite run_cons. by apply IH, handle_log_rows. }
  apply H. repeat split; constructor.
Qed.

(** X21: a contact that is not a user of the platform.  From the empty
    store, after any sequence of events, a contact share whose [user_id] is
    [None] changes no row in any environment: the query on a null chat id
    finds nothing, since every row has an integer chat id. *)
Theorem stranger_contact_changes_nothing evs e update context c :
  contact (message update) = Some c ->
  c_user_id c = None ->
  users (exec (contact_handler e update context) (run evs empty_world))
  = users (run evs empty_world).
Proof.
  intros Hc Hid.
  destruct (contact_handler_users e update context (run evs empty_world))
    as [H|(c' & Hc' & _ & H)]; [exact H|].
  rewrite H. assert (c' = c) as -> by congruence.
  apply update_one_no_match, find_one_None.
  unfold contact_key. rewrite Hid. cbn [from_option].
  eapply Forall_impl; [apply (run_user_rows evs empty_world); constructor|].
  intros d ([k Hk] & _). rewrite matches_chat_id_query.
  unfold has_chat_id in Hk. rewrite Hk. reflexivity.
Qed.

Lemma stranger_contact_changes_nothing_witness :
  users (exec (contact_handler (reliable 0 "")
                 (upd alice (contact_message stranger_contact)) no_args)
           (run [start_event alice; start_event bob] empty_world))
  = users (run [start_event alice; start_event bob] empty_world).
Proof.
  exact (stranger_contact_changes_nothing [start_event alice; start_event bob]
           (reliable 0 "") (upd alice (contact_message stranger_contact))
           no_args stranger_contact eq_refl eq_refl).
Defined.

(** X22: lookup by chat id is exact.  From the empty store, after any
    sequence of events in any environments, whichever row of the users
    carries a chat id is the row [find_one] returns for that chat id: the
    query of [start] and of [contact_handler] cannot reach a second row. *)
Theorem find_one_returns_the_row evs c (d : Doc) :
  d ∈ users (run evs empty_world) ->
  has_chat_id c d ->
  find_one (chat_id_query (VInt c)) (users (run evs empty_world)) = Some d.
Proof.
  intros Hin Hd. apply find_one_unique; [|exact Hin|exact Hd].
  apply run_unique. intros k. cbn. lia.
Qed.

Lemma find_one_returns_the_row_witness :
  find_one (chat_id_query (VInt 2)) (users both_registered)
  = Some (user_record bob).
Proof.
  apply (find_one_returns_the_row [start_event alice; start_event bob] 2
           (user_record bob)).
  - apply list_elem_of_lookup. exists 1%nat. reflexivity.
  - reflexivity.
Defined.
